(** * EmitFilesPatch: the multi-target emit multiplexer of Heft's TypeScript plugin

    A shallow embedding of
    [apps/heft/src/plugins/TypeScriptPlugin/EmitFilesPatch.ts].

    The class keeps two static fields ([_patchedTs], [_baseEmitFiles]) and
    monkey-patches the [emitFiles] property of a TypeScript compiler object.
    The embedding threads an explicit machine state holding the two statics,
    the [emitFiles] property of every compiler object, the externally owned
    [Set]s handed in as [changedFiles], the state of the outside world that
    the compiler's own emitter reads and writes, and an event trace.

    JavaScript objects are compared by reference; compiler objects, variant
    descriptors, source files and sets are therefore represented by their
    addresses (natural numbers). *)

From stdpp Require Import gmap strings list.

Abbreviation TsHandle := nat (only parsing).
Abbreviation VariantRef := nat (only parsing).
Abbreviation SetRef := nat (only parsing).
Abbreviation SourceFile := nat (only parsing).

(** [TTypescript.ModuleKind] is a numeric enum. *)
Abbreviation ModuleKind := nat (only parsing).

(** [ICachedEmitModuleKind] *)
Record ICachedEmitModuleKind : Type := {
  moduleKind : ModuleKind;
  outFolderPath : string;
  cacheOutFolderPath : string;
  isPrimary : bool
}.

(** JavaScript truthiness of an optional boolean parameter. *)
Definition truthy (flag : option bool) : bool :=
  match flag with
  | Some true => true
  | _ => false
  end.

(** JavaScript truthiness of an optional string: [undefined] and the empty
    string are falsy. *)
Definition truthyString (s : option string) : bool :=
  match s with
  | None => false
  | Some EmptyString => false
  | Some (String _ _) => true
  end.

Section Multiplexer.

(** Opaque JavaScript values (resolver, transformer sets, diagnostics, the
    members of a host, values thrown by the compiler, ...). *)
Context {Obj : Type}.

(** Whatever the compiler's own emitter reads and writes (the file system). *)
Context {World : Type}.

(** [TTypescript.CompilerOptions]: the four options that the patch reads or
    overrides, and all the others. [None] is an absent property. *)
Record CompilerOptions : Type := {
  outDir : option string;
  module : option ModuleKind;
  declaration : option bool;
  declarationMap : option bool;
  otherOptions : Obj
}.

(** [TTypescript.ParsedCommandLine]; only [options] is read. *)
Record ParsedCommandLine : Type := {
  options : CompilerOptions;
  otherCommandLine : Obj
}.

(** [IEmitHost]: [getCompilerOptions] is a thunk, represented by the value
    it returns. *)
Record IEmitHost : Type := {
  getCompilerOptions : CompilerOptions;
  otherHostMembers : Obj
}.

(** [TTypescript.EmitResult]; [None] is an absent property. *)
Record EmitResult : Type := {
  emitSkipped : bool;
  diagnostics : option Obj;
  emittedFiles : option Obj
}.

(** The seven parameters of [ts.emitFiles]. *)
Record EmitArgs : Type := {
  resolver : Obj;
  host : IEmitHost;
  targetSourceFile : option SourceFile;
  emitTransformers : Obj;
  emitOnlyDtsFiles : option bool;
  onlyBuildInfo : option bool;
  forceDtsEmit : option bool
}.

(** What can be thrown. [InternalError] and [Error] carry the string given to
    their constructor. *)
Inductive Exn : Type :=
| InternalError (message : string)
| Error (message : string)
| TypeError
| Thrown (value : Obj).

Inductive Completion (A : Type) : Type :=
| Normal (a : A)
| Throw (e : Exn).

Arguments Normal {A} a.

Arguments Throw {A} e.

(** The variables captured by the arrow function that [install] assigns to
    [ts.emitFiles]. *)
Record PatchClosure : Type := {
  closure_ts : TsHandle;
  closure_moduleKindsToEmit : list VariantRef;
  closure_compilerOptionsMap : gmap VariantRef CompilerOptions;
  closure_defaultModuleKind : option ModuleKind;
  closure_changedFiles : option SetRef
}.

(** A function value that can sit in [ts.emitFiles]: one of the compiler's
    own functions, or the arrow function created by [install]. *)
Inductive EmitFn : Type :=
| NativeEmit (id : nat)
| PatchedEmit (c : PatchClosure).

Inductive Event : Type :=
| EvAdd (set : SetRef) (file : SourceFile)
| EvCall (fn : EmitFn) (args : EmitArgs).

Record Machine : Type := {
  _patchedTs : option TsHandle;
  _baseEmitFiles : option EmitFn;
  (** [ts.emitFiles] for every compiler object [ts]; [None] is [undefined]. *)
  emitFiles : gmap TsHandle EmitFn;
  (** contents of the [Set<IExtendedSourceFile>] objects *)
  sets : gmap SetRef (gset SourceFile);
  world : World;
  trace : list Event
}.

(** The variant descriptors, by address. The patch never writes to them. *)
Variable variantAt : VariantRef -> ICachedEmitModuleKind.

(** [ts.getTransformers(compilerOptions, customTransformers, emitOnlyDtsFiles)] *)
Variable getTransformers : TsHandle -> CompilerOptions -> option Obj -> option bool -> Obj.

(** The compiler's own emitters. They act on the world only: they hold no
    reference to the statics of [EmitFilesPatch] or to the [changedFiles] set. *)
Variable nativeEmit : nat -> EmitArgs -> World -> Completion EmitResult * World.

(** ** State updates *)

Definition setStatics (p : option TsHandle) (b : option EmitFn) (m : Machine) : Machine :=
  {| _patchedTs := p; _baseEmitFiles := b; emitFiles := emitFiles m;
     sets := sets m; world := world m; trace := trace m |}.

(** [ts.emitFiles = f]; assigning [undefined] is represented by an absent entry. *)
Definition setEmitFiles (ts : TsHandle) (f : option EmitFn) (m : Machine) : Machine :=
  {| _patchedTs := _patchedTs m; _baseEmitFiles := _baseEmitFiles m;
     emitFiles := match f with
                  | Some fn => <[ts := fn]> (emitFiles m)
                  | None => delete ts (emitFiles m)
                  end;
     sets := sets m; world := world m; trace := trace m |}.

Definition setWorld (w : World) (m : Machine) : Machine :=
  {| _patchedTs := _patchedTs m; _baseEmitFiles := _baseEmitFiles m;
     emitFiles := emitFiles m; sets := sets m; world := w; trace := trace m |}.

Definition logEvent (e : Event) (m : Machine) : Machine :=
  {| _patchedTs := _patchedTs m; _baseEmitFiles := _baseEmitFiles m;
     emitFiles := emitFiles m; sets := sets m; world := world m;
     trace := trace m ++ [e] |}.

Definition setContents (s : SetRef) (m : Machine) : gset SourceFile :=
  default ∅ (sets m !! s).

(** [changedFiles.add(targetSourceFile)] *)
Definition setAdd (s : SetRef) (f : SourceFile) (m : Machine) : Machine :=
  logEvent (EvAdd s f)
    {| _patchedTs := _patchedTs m; _baseEmitFiles := _baseEmitFiles m;
       emitFiles := emitFiles m;
       sets := <[s := {[f]} ∪ setContents s m]> (sets m);
       world := world m; trace := trace m |}.

(** ** install: the loop that fills [compilerOptionsMap] *)

Definition multiplePrimaryMessage : string :=
  "Multiple primary module emit kinds encountered.".

(** [{ ...tsconfig.options, outDir }] *)
Definition primaryOptions (base : CompilerOptions) (dir : string) : CompilerOptions :=
  {| outDir := Some dir; module := module base; declaration := declaration base;
     declarationMap := declarationMap base; otherOptions := otherOptions base |}.

(** [{ ...tsconfig.options, outDir, module, declaration: false, declarationMap: false }] *)
Definition secondaryOptions (base : CompilerOptions) (dir : string) (mk : ModuleKind)
  : CompilerOptions :=
  {| outDir := Some dir; module := Some mk; declaration := Some false;
     declarationMap := Some false; otherOptions := otherOptions base |}.

Definition effectiveOutDir (useBuildCache : bool) (v : ICachedEmitModuleKind) : string :=
  if useBuildCache then cacheOutFolderPath v else outFolderPath v.

(** The [for] loop of [install], with its three mutable locals as
    accumulators. *)
Fixpoint buildCompilerOptions (tsconfig : ParsedCommandLine) (useBuildCache : bool)
    (moduleKindsToEmit : list VariantRef)
    (foundPrimary : bool) (defaultModuleKind : option ModuleKind)
    (compilerOptionsMap : gmap VariantRef CompilerOptions)
  : Completion (option ModuleKind * gmap VariantRef CompilerOptions) :=
  match moduleKindsToEmit with
  | [] => Normal (defaultModuleKind, compilerOptionsMap)
  | moduleKindToEmit :: rest =>
      let v := variantAt moduleKindToEmit in
      let dir := effectiveOutDir useBuildCache v in
      if isPrimary v then
        if foundPrimary then Throw (Error multiplePrimaryMessage)
        else
          buildCompilerOptions tsconfig useBuildCache rest true (Some (moduleKind v))
            (<[moduleKindToEmit := primaryOptions (options tsconfig) dir]> compilerOptionsMap)
      else
        buildCompilerOptions tsconfig useBuildCache rest foundPrimary defaultModuleKind
          (<[moduleKindToEmit := secondaryOptions (options tsconfig) dir (moduleKind v)]>
             compilerOptionsMap)
  end.

Definition alreadyInstalledMessage : string :=
  "EmitFilesPatch.install() cannot be called without first uninstalling the existing patch".

Definition install (ts : TsHandle) (tsconfig : ParsedCommandLine)
    (moduleKindsToEmit : list VariantRef) (useBuildCache : bool)
    (changedFiles : option SetRef) (m : Machine) : Completion unit * Machine :=
  match _patchedTs m with
  | Some _ => (Throw (InternalError alreadyInstalledMessage), m)
  | None =>
      let m1 := setStatics (Some ts) (emitFiles m !! ts) m in
      match buildCompilerOptions tsconfig useBuildCache moduleKindsToEmit false None ∅ with
      | Throw e => (Throw e, m1)
      | Normal (defaultModuleKind, compilerOptionsMap) =>
          (Normal tt,
           setEmitFiles ts
             (Some (PatchedEmit
                {| closure_ts := ts;
                   closure_moduleKindsToEmit := moduleKindsToEmit;
                   closure_compilerOptionsMap := compilerOptionsMap;
                   closure_defaultModuleKind := defaultModuleKind;
                   closure_changedFiles := changedFiles |}))
             m1)
      end
  end.

(** [get isInstalled] *)
Definition isInstalled (m : Machine) : bool :=
  match _patchedTs m with
  | Some _ => true
  | None => false
  end.

Definition notInstalledMessage : string :=
  "EmitFilesPatch.uninstall() cannot be called if no patch was installed".

Definition wrongObjectMessage : string :=
  "EmitFilesPatch.uninstall() called for the wrong object".

Definition uninstall (ts : TsHandle) (m : Machine) : Completion unit * Machine :=
  match _patchedTs m with
  | None => (Throw (InternalError notInstalledMessage), m)
  | Some patched =>
      if decide (ts = patched) then
        (Normal tt, setStatics None None (setEmitFiles ts (_baseEmitFiles m) m))
      else (Throw (InternalError wrongObjectMessage), m)
  end.

(** ** The arrow function assigned to [ts.emitFiles] *)

Definition outDirMessage : string :=
  "Expected compilerOptions.outDir to be assigned".

(** How a function value found in [_baseEmitFiles] is invoked. [None] means
    that the evaluation did not finish within the recursion budget. *)
Definition Invoke : Type :=
  EmitFn -> EmitArgs -> Machine -> option (Completion EmitResult * Machine).

(** The arguments of the per-variant call:
    [{ ...host, getCompilerOptions: () => compilerOptions }] as host and
    [ts.getTransformers(compilerOptions, undefined, emitOnlyDtsFiles)] as
    transformers. *)
Definition flavorArgs (ts : TsHandle) (args : EmitArgs) (compilerOptions : CompilerOptions)
  : EmitArgs :=
  {| resolver := resolver args;
     host := {| getCompilerOptions := compilerOptions;
                otherHostMembers := otherHostMembers (host args) |};
     targetSourceFile := targetSourceFile args;
     emitTransformers := getTransformers ts compilerOptions None (emitOnlyDtsFiles args);
     emitOnlyDtsFiles := emitOnlyDtsFiles args;
     onlyBuildInfo := onlyBuildInfo args;
     forceDtsEmit := forceDtsEmit args |}.

(** [{ ...defaultModuleKindResult!, emitSkipped }]; spreading [undefined]
    contributes no property. *)
Definition spreadResult (defaultModuleKindResult : option EmitResult) (skipped : bool)
  : EmitResult :=
  match defaultModuleKindResult with
  | Some r => {| emitSkipped := skipped; diagnostics := diagnostics r;
                 emittedFiles := emittedFiles r |}
  | None => {| emitSkipped := skipped; diagnostics := None; emittedFiles := None |}
  end.

(** The [for] loop of the arrow function, over the variants still to be
    emitted, with [defaultModuleKindResult] and [emitSkipped] as
    accumulators. [EmitFilesPatch._baseEmitFiles] is read in every round. *)
Fixpoint fanOut (invoke : Invoke) (c : PatchClosure) (args : EmitArgs)
    (remaining : list VariantRef)
    (defaultModuleKindResult : option EmitResult) (skipped : bool) (m : Machine)
  : option (Completion EmitResult * Machine) :=
  match remaining with
  | [] => Some (Normal (spreadResult defaultModuleKindResult skipped), m)
  | moduleKindToEmit :: rest =>
      match closure_compilerOptionsMap c !! moduleKindToEmit with
      | None => Some (Throw TypeError, m)
      | Some compilerOptions =>
          if truthyString (outDir compilerOptions) then
            match _baseEmitFiles m with
            | None => Some (Throw TypeError, m)
            | Some base =>
                let fargs := flavorArgs (closure_ts c) args compilerOptions in
                match invoke base fargs (logEvent (EvCall base fargs) m) with
                | None => None
                | Some (Throw e, m') => Some (Throw e, m')
                | Some (Normal flavorResult, m') =>
                    fanOut invoke c args rest
                      (if decide (Some (moduleKind (variantAt moduleKindToEmit))
                                  = closure_defaultModuleKind c)
                       then Some flavorResult else defaultModuleKindResult)
                      (skipped || emitSkipped flavorResult)
                      m'
                end
            end
          else Some (Throw (InternalError outDirMessage), m)
      end
  end.

Definition passThrough (args : EmitArgs) : bool :=
  truthy (onlyBuildInfo args) || truthy (emitOnlyDtsFiles args).

(** [if (targetSourceFile && changedFiles) { changedFiles.add(targetSourceFile); }] *)
Definition recordChangedFile (c : PatchClosure) (args : EmitArgs) (m : Machine) : Machine :=
  match targetSourceFile args, closure_changedFiles c with
  | Some file, Some changedFiles => setAdd changedFiles file m
  | _, _ => m
  end.

Definition patchedEmitFiles (invoke : Invoke) (c : PatchClosure) (args : EmitArgs)
    (m : Machine) : option (Completion EmitResult * Machine) :=
  if passThrough args then
    match _baseEmitFiles m with
    | None => Some (Throw TypeError, m)
    | Some base => invoke base args (logEvent (EvCall base args) m)
    end
  else
    fanOut invoke c args (closure_moduleKindsToEmit c) None false
      (recordChangedFile c args m).

(** Calling a function value. A native emitter is a step of the outside
    world; the arrow function runs [patchedEmitFiles], whose calls of
    [_baseEmitFiles] may again reach an arrow function. *)
Fixpoint callEmitFn (fuel : nat) (fn : EmitFn) (args : EmitArgs) (m : Machine)
  : option (Completion EmitResult * Machine) :=
  match fn with
  | NativeEmit id =>
      let '(r, w) := nativeEmit id args (world m) in Some (r, setWorld w m)
  | PatchedEmit c =>
      match fuel with
      | 0 => None
      | S fuel' => patchedEmitFiles (callEmitFn fuel') c args m
      end
  end.

(** [ts.emitFiles(...)] as the compiler calls it. *)
Definition callEmitFiles (fuel : nat) (ts : TsHandle) (args : EmitArgs) (m : Machine)
  : option (Completion EmitResult * Machine) :=
  match emitFiles m !! ts with
  | None => Some (Throw TypeError, m)
  | Some fn => callEmitFn fuel fn args m
  end.

(** ** Vocabulary of the statements *)

(** Number of entries of the list that are flagged primary. *)
Definition primaryCount (moduleKindsToEmit : list VariantRef) : nat :=
  length (filter (fun v => isPrimary (variantAt v) = true) moduleKindsToEmit).

(** What the loop stores for a variant. *)
Definition derivedOptions (tsconfig : ParsedCommandLine) (useBuildCache : bool)
    (v : VariantRef) : CompilerOptions :=
  if isPrimary (variantAt v)
  then primaryOptions (options tsconfig) (effectiveOutDir useBuildCache (variantAt v))
  else secondaryOptions (options tsconfig) (effectiveOutDir useBuildCache (variantAt v))
         (moduleKind (variantAt v)).

Definition fillMap (tsconfig : ParsedCommandLine) (useBuildCache : bool)
    (vs : list VariantRef) (cm : gmap VariantRef CompilerOptions)
  : gmap VariantRef CompilerOptions :=
  foldl (fun acc v => <[v := derivedOptions tsconfig useBuildCache v]> acc) cm vs.

(** The module kind of the last primary entry, if there is one. *)
Fixpoint lastPrimaryKind (vs : list VariantRef) (d : option ModuleKind) : option ModuleKind :=
  match vs with
  | [] => d
  | v :: rest =>
      lastPrimaryKind rest (if isPrimary (variantAt v) then Some (moduleKind (variantAt v)) else d)
  end.

(** The arrow function that a successful [install] leaves in [ts.emitFiles]. *)
Definition installedClosure (ts : TsHandle) (tsconfig : ParsedCommandLine)
    (vs : list VariantRef) (ubc : bool) (cf : option SetRef) : PatchClosure :=
  {| closure_ts := ts;
     closure_moduleKindsToEmit := vs;
     closure_compilerOptionsMap := fillMap tsconfig ubc vs ∅;
     closure_defaultModuleKind := lastPrimaryKind vs None;
     closure_changedFiles := cf |}.

(** [m'] differs from [m] by steps of the outside world, additions to the
    [changedFiles] sets and new trace entries only. *)
Record Extends (m m' : Machine) : Prop := {
  ext_patchedTs : _patchedTs m' = _patchedTs m;
  ext_baseEmitFiles : _baseEmitFiles m' = _baseEmitFiles m;
  ext_emitFiles : emitFiles m' = emitFiles m;
  ext_sets : forall s : SetRef, setContents s m ⊆ setContents s m';
  ext_trace : exists suffix, trace m' = trace m ++ suffix
}.

Definition InvokeExtends (invoke : Invoke) : Prop :=
  forall fn args m out m', invoke fn args m = Some (out, m') -> Extends m m'.

(** How often a file is listed among the elements of a set. *)
Definition occurrences (f : SourceFile) (s : gset SourceFile) : nat :=
  length (filter (fun x => x = f) (elements s)).

(** The per-variant calls of the saved function, in list order, each with the
    configuration derived for its variant, and each returning normally. *)
Inductive FlavorRuns (invoke : Invoke) (ts : TsHandle) (tsconfig : ParsedCommandLine)
    (ubc : bool) (args : EmitArgs) (base : EmitFn)
  : list VariantRef -> Machine -> list EmitResult -> Machine -> Prop :=
| FlavorRuns_nil m : FlavorRuns invoke ts tsconfig ubc args base [] m [] m
| FlavorRuns_cons v vs m r m1 rs m2 :
    invoke base (flavorArgs ts args (derivedOptions tsconfig ubc v))
      (logEvent (EvCall base (flavorArgs ts args (derivedOptions tsconfig ubc v))) m)
    = Some (Normal r, m1) ->
    FlavorRuns invoke ts tsconfig ubc args base vs m1 rs m2 ->
    FlavorRuns invoke ts tsconfig ubc args base (v :: vs) m (r :: rs) m2.

(** The result of the last variant whose module kind is the default one. *)
Fixpoint pickDefault (dmk : option ModuleKind) (vs : list VariantRef)
    (rs : list EmitResult) (acc : option EmitResult) : option EmitResult :=
  match vs, rs with
  | v :: vs', r :: rs' =>
      pickDefault dmk vs' rs'
        (if decide (Some (moduleKind (variantAt v)) = dmk) then Some r else acc)
  | _, _ => acc
  end.

End Multiplexer.

Arguments Normal {Obj A} a.
Arguments Throw {Obj A} e.

(** * A build with two compiler objects

    Opaque values are numbers and the world is the list of output folders
    written so far. Compiler object 10 carries an emitter that writes into
    the folder named by the host's [outDir], reports the host's [module] as
    its diagnostics and skips emit for module kind 99 (ESNext); compiler
    object 11 carries an emitter that throws. *)

Definition heftVariantAt (v : VariantRef) : ICachedEmitModuleKind :=
  match v with
  | 0 => {| moduleKind := 1; outFolderPath := "lib";
            cacheOutFolderPath := ".heft/build-cache/lib"; isPrimary := true |}
  | 1 => {| moduleKind := 99; outFolderPath := "lib-esnext";
            cacheOutFolderPath := ".heft/build-cache/lib-esnext"; isPrimary := false |}
  | 2 => {| moduleKind := 2; outFolderPath := "lib-amd";
            cacheOutFolderPath := ".heft/build-cache/lib-amd"; isPrimary := true |}
  | 3 => {| moduleKind := 1; outFolderPath := "lib-commonjs";
            cacheOutFolderPath := ".heft/build-cache/lib-commonjs"; isPrimary := false |}
  | _ => {| moduleKind := 5; outFolderPath := EmptyString;
            cacheOutFolderPath := EmptyString; isPrimary := false |}
  end.

Definition heftGetTransformers (ts : TsHandle) (co : @CompilerOptions nat)
    (customTransformers : option nat) (emitOnlyDtsFiles : option bool) : nat :=
  default 0 (module co).

Definition heftNativeEmit (id : nat) (args : @EmitArgs nat) (w : list string)
  : Completion EmitResult * list string :=
  let co := getCompilerOptions (host args) in
  match id with
  | 0 => (Normal {| emitSkipped := bool_decide (module co = Some 99);
                    diagnostics := Some (default 0 (module co));
                    emittedFiles := None |},
          w ++ [default EmptyString (outDir co)])
  | _ => (Throw (Thrown 13), w)
  end.

Definition heftTsconfig : @ParsedCommandLine nat :=
  {| options := {| outDir := Some "out"%string; module := Some 1; declaration := Some true;
                   declarationMap := Some true; otherOptions := 7 |};
     otherCommandLine := 0 |}.

Abbreviation HeftMachine := (@Machine nat (list string)) (only parsing).

Definition heftStart : HeftMachine :=
  {| _patchedTs := None; _baseEmitFiles := None;
     emitFiles := <[10 := NativeEmit 0]> (<[11 := NativeEmit 1]> ∅);
     sets := ∅; world := []; trace := [] |}.

(** The arguments of an emit call for source file 42. *)
Definition heftArgs (dtsOnly buildInfoOnly : option bool) : @EmitArgs nat :=
  {| resolver := 1;
     host := {| getCompilerOptions := options heftTsconfig; otherHostMembers := 2 |};
     targetSourceFile := Some 42;
     emitTransformers := 3;
     emitOnlyDtsFiles := dtsOnly;
     onlyBuildInfo := buildInfoOnly;
     forceDtsEmit := None |}.

Definition heftInstall (ts : TsHandle) (vs : list VariantRef) (ubc : bool)
    (cf : option SetRef) (m : HeftMachine) : Completion unit * HeftMachine :=
  install heftVariantAt ts heftTsconfig vs ubc cf m.

Definition heftCall (ts : TsHandle) (args : EmitArgs) (m : HeftMachine)
  : option (Completion EmitResult * HeftMachine) :=
  callEmitFiles heftVariantAt heftGetTransformers heftNativeEmit 1 ts args m.

(** The state after [install(ts, tsconfig, [0, 1], false, set 0)]. *)
Definition heftInstalled : HeftMachine := (heftInstall 10 [0; 1] false (Some 0) heftStart).2.

Definition heftClosure : @PatchClosure nat :=
  installedClosure heftVariantAt 10 heftTsconfig [0; 1] false (Some 0).

(** The same installation on compiler object 11, whose emitter throws. *)
Definition heftInstalled11 : HeftMachine :=
  (heftInstall 11 [0; 1] false (Some 0) heftStart).2.

Definition heftClosure11 : @PatchClosure nat :=
  installedClosure heftVariantAt 11 heftTsconfig [0; 1] false (Some 0).

Definition machineAfter (r : option (@Completion nat (@EmitResult nat) * HeftMachine))
    (m : HeftMachine) : HeftMachine :=
  match r with
  | Some (_, m') => m'
  | None => m
  end.

Definition heftAfterThrow : HeftMachine :=
  machineAfter (heftCall 11 (heftArgs None None) heftInstalled11) heftInstalled11.

Definition heftAfterNormal : HeftMachine :=
  machineAfter (heftCall 10 (heftArgs None None) heftInstalled) heftInstalled.

Definition heftFlavorResults : list (@EmitResult nat) :=
  [ {| emitSkipped := false; diagnostics := Some 1; emittedFiles := None |};
    {| emitSkipped := true; diagnostics := Some 99; emittedFiles := None |} ].

(** Variant 4 has no output folder. *)
Definition heftInstalledEmptyPath : HeftMachine :=
  (heftInstall 10 [0; 4] false (Some 0) heftStart).2.

Definition heftAfterEmptyPath : HeftMachine :=
  machineAfter (heftCall 10 (heftArgs None None) heftInstalledEmptyPath)
    heftInstalledEmptyPath.

(** * HeftToolsCommandLineParser: running the tool

    A shallow embedding of [onExecute] and its private helpers. The methods
    of the collaborating objects (terminal, logging manager, plugin manager,
    metrics collector, the base class and [process.chdir]) are calls to the
    outside: each may change the process in any way and may throw. Awaiting
    a promise is sequencing; [process.exit] ends the run. *)

Inductive ExternalCall : Type :=
| EnableVerboseLogging
| Chdir (directory : string)
| InitializeDefaultPlugins
| InitializePluginsFromConfigFile
| InitializePlugin (pluginSpecifier : string)
| SuperOnExecute
| FlushAndTeardownAsync
| WriteLine (messageParts : list string)
| WriteVerboseLine (messageParts : list string)
| WriteErrorLine (messageParts : list string).

(** The fields of the parser that [onExecute] reads: [this._debugFlag.value],
    [this._heftConfiguration.buildFolder] and [this._pluginsParameter.values]. *)
Record Parser : Type := {
  debugFlag : bool;
  buildFolder : string;
  pluginsParameter : list string
}.

(** [get isDebug] *)
Definition isDebug (this : Parser) : bool := debugFlag this.

Definition doubleQuote : string := String (Ascii.ascii_of_nat 34) EmptyString.

Section CommandLine.

(** Values that can be thrown, and the state of the collaborating objects. *)
Context {Err Ext : Type}.

Record Process : Type := {
  (** [process.exitCode]; [None] is [undefined] *)
  exitCode : option Z;
  (** [process.cwd()] *)
  cwd : string;
  (** [this._terminalProvider.verboseEnabled] *)
  verboseEnabled : bool;
  (** [InternalError.breakInDebugger] *)
  breakInDebugger : bool;
  collaborators : Ext
}.

(** The process and the calls made so far, each with whether it returned. *)
Record Run : Type := {
  process : Process;
  calls : list (ExternalCall * bool)
}.

Inductive Result (A : Type) : Type :=
| Ok (a : A)
| Raise (e : @Exn Err)
| Exit (code : option Z).
Arguments Ok {A} a.
Arguments Raise {A} e.
Arguments Exit {A} code.

Definition Action (A : Type) : Type := Run -> Result A * Run.

Variable external : ExternalCall -> Process -> @Completion Err unit * Process.
(** [error.toString()] and [error.stack] *)
Variable toString : @Exn Err -> string.
Variable stack : @Exn Err -> string.

Definition ret {A : Type} (a : A) : Action A := fun s => (Ok a, s).

Definition bind {A B : Type} (m : Action A) (k : A -> Action B) : Action B :=
  fun s =>
    match m s with
    | (Ok a, s') => k a s'
    | (Raise e, s') => (Raise e, s')
    | (Exit code, s') => (Exit code, s')
    end.

Definition andThen {A B : Type} (m : Action A) (k : Action B) : Action B :=
  bind m (fun _ => k).

(** [try { body } catch (e) { handler }]; [process.exit] is not caught. *)
Definition tryCatch {A : Type} (body : Action A) (handler : @Exn Err -> Action A)
  : Action A :=
  fun s =>
    match body s with
    | (Raise e, s') => handler e s'
    | other => other
    end.

Definition callExternal (c : ExternalCall) : Action unit :=
  fun s =>
    match external c (process s) with
    | (Normal _, p) => (Ok tt, {| process := p; calls := calls s ++ [(c, true)] |})
    | (Throw e, p) => (Raise e, {| process := p; calls := calls s ++ [(c, false)] |})
    end.

Definition update (f : Process -> Process) : Action unit :=
  fun s => (Ok tt, {| process := f (process s); calls := calls s |}).

Definition getProcess : Action Process := fun s => (Ok (process s), s).

(** [process.exit(code)] *)
Definition processExit (code : option Z) : Action unit := fun s => (Exit code, s).

Definition setExitCode (code : option Z) (p : Process) : Process :=
  {| exitCode := code; cwd := cwd p; verboseEnabled := verboseEnabled p;
     breakInDebugger := breakInDebugger p; collaborators := collaborators p |}.

Definition setVerboseEnabled (b : bool) (p : Process) : Process :=
  {| exitCode := exitCode p; cwd := cwd p; verboseEnabled := b;
     breakInDebugger := breakInDebugger p; collaborators := collaborators p |}.

Definition setBreakInDebugger (b : bool) (p : Process) : Process :=
  {| exitCode := exitCode p; cwd := cwd p; verboseEnabled := verboseEnabled p;
     breakInDebugger := b; collaborators := collaborators p |}.

Definition buildFolderMessage (folder : string) : string :=
  "Project build folder is " +:+ doubleQuote +:+ folder +:+ doubleQuote.

Definition normalizingMessage (currentCwd : string) : string :=
  "CWD is " +:+ doubleQuote +:+ currentCwd +:+ doubleQuote
  +:+ ". Normalizing to project build folder.".

Definition _normalizeCwd (this : Parser) : Action unit :=
  andThen (callExternal (WriteLine [buildFolderMessage (buildFolder this)]))
    (bind getProcess (fun p =>
       let currentCwd := cwd p in
       if decide (currentCwd = buildFolder this) then ret tt
       else
         andThen (callExternal (WriteVerboseLine [normalizingMessage currentCwd]))
           (callExternal (Chdir (buildFolder this))))).

(** [for (const pluginSpecifier of pluginSpecifiers) { ... }] *)
Fixpoint initializeEach (pluginSpecifiers : list string) : Action unit :=
  match pluginSpecifiers with
  | [] => ret tt
  | pluginSpecifier :: rest =>
      andThen (callExternal (InitializePlugin pluginSpecifier)) (initializeEach rest)
  end.

Definition _initializePlugins (pluginSpecifiers : list string) : Action unit :=
  andThen (callExternal InitializeDefaultPlugins)
    (andThen (callExternal InitializePluginsFromConfigFile)
       (initializeEach pluginSpecifiers)).

(** [!process.exitCode || process.exitCode > 0] *)
Definition unsetOrPositive (code : option Z) : bool :=
  match code with
  | None => true
  | Some c => (c =? 0)%Z || (0 <? c)%Z
  end.

Definition _reportErrorAndSetExitCode (this : Parser) (error : @Exn Err) : Action unit :=
  andThen (callExternal (WriteErrorLine [toString error]))
    (andThen
       (if isDebug this
        then andThen (callExternal (WriteLine []))
               (callExternal (WriteErrorLine [stack error]))
        else ret tt)
       (andThen (callExternal FlushAndTeardownAsync)
          (bind getProcess (fun p =>
             if unsetOrPositive (exitCode p) then processExit (exitCode p)
             else processExit (Some 1%Z))))).

Definition onExecute (this : Parser) : Action unit :=
  andThen (update (setExitCode (Some 1%Z)))
    (andThen (update (setVerboseEnabled (isDebug this)))
       (andThen
          (if isDebug this
           then andThen (callExternal EnableVerboseLogging) (update (setBreakInDebugger true))
           else ret tt)
          (andThen (_normalizeCwd this)
             (andThen (_initializePlugins (pluginsParameter this))
                (andThen
                   (tryCatch
                      (andThen (callExternal SuperOnExecute)
                         (callExternal FlushAndTeardownAsync))
                      (fun e => _reportErrorAndSetExitCode this e))
                   (update (setExitCode (Some 0%Z)))))))).

(** ** Vocabulary of the statements *)

Definition returned (c : ExternalCall) : ExternalCall * bool := (c, true).

(** The calls of [_initializePlugins], in order. *)
Definition initializeCalls (pluginSpecifiers : list string) : list ExternalCall :=
  InitializeDefaultPlugins :: InitializePluginsFromConfigFile
  :: map InitializePlugin pluginSpecifiers.

(** The calls of [_reportErrorAndSetExitCode], in order. *)
Definition reportCalls (this : Parser) (error : @Exn Err) : list ExternalCall :=
  WriteErrorLine [toString error]
  :: (if isDebug this then [WriteLine []; WriteErrorLine [stack error]] else [])
  ++ [FlushAndTeardownAsync].

(** Calls made before the plugins are initialised. *)
Definition isSetupCall (c : ExternalCall) : bool :=
  match c with
  | EnableVerboseLogging | Chdir _ | WriteLine _ | WriteVerboseLine _ => true
  | _ => false
  end.

(** A list of calls made one after the other, up to the first that throws. *)
Fixpoint callAll (cs : list ExternalCall) : Action unit :=
  match cs with
  | [] => ret tt
  | c :: rest => andThen (callExternal c) (callAll rest)
  end.

(** An action that neither changes [process.exitCode] nor ends the process. *)
Definition quiet {A : Type} (m : Action A) : Prop :=
  forall s r s',
    m s = (r, s') ->
    exitCode (process s') = exitCode (process s) /\ forall code, r <> Exit code.

(** Assumptions on the outside that some statements need. *)
Definition externalsKeepExitCode : Prop :=
  forall c p, exitCode (external c p).2 = exitCode p.

Definition writesKeepCwd : Prop :=
  forall parts p,
    cwd (external (WriteLine parts) p).2 = cwd p
    /\ cwd (external (WriteVerboseLine parts) p).2 = cwd p.

Definition chdirSetsCwd : Prop :=
  forall directory p p', external (Chdir directory) p = (Normal tt, p') -> cwd p' = directory.

End CommandLine.

Arguments Ok {Err A} a.
Arguments Raise {Err A} e.
Arguments Exit {Err A} code.

(** * A run of the tool

    The collaborators are reduced to one bit that tells whether the action
    of the base class fails; the plugin named "missing" cannot be
    initialised; [process.chdir] changes the working directory; every other
    call returns and changes nothing. *)

Abbreviation HeftProcess := (@Process bool) (only parsing).
Abbreviation HeftRun := (@Run bool) (only parsing).

Definition heftExternal (c : ExternalCall) (p : HeftProcess)
  : @Completion nat unit * HeftProcess :=
  match c with
  | Chdir directory =>
      (Normal tt,
       {| exitCode := exitCode p; cwd := directory; verboseEnabled := verboseEnabled p;
          breakInDebugger := breakInDebugger p; collaborators := collaborators p |})
  | InitializePlugin pluginSpecifier =>
      if String.eqb pluginSpecifier "missing" then (Throw (Thrown 404), p)
      else (Normal tt, p)
  | SuperOnExecute =>
      if collaborators p then (Throw (Error "build failed"), p) else (Normal tt, p)
  | _ => (Normal tt, p)
  end.

Definition heftToString (e : @Exn nat) : string :=
  match e with
  | InternalError message => "Internal Error: " +:+ message
  | Error message => "Error: " +:+ message
  | TypeError => "TypeError"
  | Thrown _ => "thrown"
  end.

Definition heftStack (e : @Exn nat) : string := heftToString e +:+ " at onExecute".

Definition heftParser : Parser :=
  {| debugFlag := true; buildFolder := "/repo/app";
     pluginsParameter := ["./plugin-a"; "./plugin-b"] |}.

Definition heftParserMissing : Parser :=
  {| debugFlag := false; buildFolder := "/repo/app";
     pluginsParameter := ["./plugin-a"; "missing"; "./plugin-b"] |}.

Definition heftRunStart (actionFails : bool) : HeftRun :=
  {| process := {| exitCode := None; cwd := "/repo"; verboseEnabled := false;
                   breakInDebugger := false; collaborators := actionFails |};
     calls := [] |}.

Definition heftOnExecute (this : Parser) (actionFails : bool) : Result unit * HeftRun :=
  onExecute heftExternal heftToString heftStack this (heftRunStart actionFails).

(** * Properties *)

Section Properties.

Context {Obj World : Type}.
Variable variantAt : VariantRef -> ICachedEmitModuleKind.
Variable getTransformers :
  TsHandle -> @CompilerOptions Obj -> option Obj -> option bool -> Obj.
Variable nativeEmit :
  nat -> @EmitArgs Obj -> World -> @Completion Obj (@EmitResult Obj) * World.

Implicit Types m : @Machine Obj World.
Implicit Types c : @PatchClosure Obj.
Implicit Types args : @EmitArgs Obj.
Implicit Types tsconfig : @ParsedCommandLine Obj.
Implicit Types invoke : @Invoke Obj World.
Implicit Types base fn : @EmitFn Obj.
Implicit Types rs : list (@EmitResult Obj).
Implicit Types dres : option (@EmitResult Obj).
Implicit Types cm : gmap VariantRef (@CompilerOptions Obj).

(** The definitions, at the variant store and the compiler of this section. *)
Local Abbreviation buildCompilerOptions := (buildCompilerOptions variantAt).
Local Abbreviation install := (install (World:=World) variantAt).
Local Abbreviation primaryCount := (primaryCount variantAt).
Local Abbreviation derivedOptions := (derivedOptions (Obj:=Obj) variantAt).
Local Abbreviation fillMap := (fillMap (Obj:=Obj) variantAt).
Local Abbreviation lastPrimaryKind := (lastPrimaryKind variantAt).
Local Abbreviation installedClosure := (installedClosure (Obj:=Obj) variantAt).
Local Abbreviation flavorArgs := (flavorArgs getTransformers).
Local Abbreviation fanOut := (fanOut (World:=World) variantAt getTransformers).
Local Abbreviation patchedEmitFiles :=
  (patchedEmitFiles (World:=World) variantAt getTransformers).
Local Abbreviation callEmitFn := (callEmitFn variantAt getTransformers nativeEmit).
Local Abbreviation FlavorRuns := (FlavorRuns (World:=World) variantAt getTransformers).
Local Abbreviation pickDefault := (pickDefault (Obj:=Obj) variantAt).

(** ** The loop of install *)

Lemma primaryCount_cons v vs :
  primaryCount (v :: vs) = (if isPrimary (variantAt v) then 1 else 0) + primaryCount vs.
Proof.
  unfold primaryCount. rewrite filter_cons.
  destruct (isPrimary (variantAt v)); case_decide; simpl; congruence.
Qed.

Lemma primaryCount_app vs ws :
  primaryCount (vs ++ ws) = primaryCount vs + primaryCount ws.
Proof. unfold primaryCount. rewrite filter_app, length_app. done. Qed.

Lemma buildCompilerOptions_ok tsconfig ubc vs :
  forall (fp : bool) (d : option ModuleKind) cm,
  (if fp then 1 else 0) + primaryCount vs <= 1 ->
  buildCompilerOptions tsconfig ubc vs fp d cm
  = Normal (lastPrimaryKind vs d, fillMap tsconfig ubc vs cm).
Proof.
  induction vs as [|v vs IH]; intros fp d cm Hc; [done|].
  rewrite primaryCount_cons in Hc. simpl. unfold derivedOptions.
  destruct (isPrimary (variantAt v)) eqn:Hp.
  - destruct fp; [lia|]. rewrite IH; [done | simpl; lia].
  - rewrite IH; [done | lia].
Qed.

Lemma buildCompilerOptions_multiple tsconfig ubc vs :
  forall (fp : bool) (d : option ModuleKind) cm,
  2 <= (if fp then 1 else 0) + primaryCount vs ->
  buildCompilerOptions tsconfig ubc vs fp d cm = Throw (Error multiplePrimaryMessage).
Proof.
  induction vs as [|v vs IH]; intros fp d cm Hc.
  - unfold primaryCount in Hc. destruct fp; simpl in Hc; lia.
  - rewrite primaryCount_cons in Hc. simpl.
    destruct (isPrimary (variantAt v)) eqn:Hp.
    + destruct fp; [done|]. apply IH. simpl. lia.
    + apply IH. lia.
Qed.

Lemma fillMap_notin tsconfig ubc vs : forall cm (v : VariantRef),
  v ∉ vs -> fillMap tsconfig ubc vs cm !! v = cm !! v.
Proof.
  induction vs as [|w vs IH]; intros cm v Hv; [done|].
  apply not_elem_of_cons in Hv as [Hne Hv].
  unfold fillMap in *. simpl. rewrite IH; [|done]. by rewrite lookup_insert_ne.
Qed.

Lemma fillMap_in tsconfig ubc vs : forall cm (v : VariantRef),
  v ∈ vs -> fillMap tsconfig ubc vs cm !! v = Some (derivedOptions tsconfig ubc v).
Proof.
  induction vs as [|w vs IH]; intros cm v Hv; [by apply elem_of_nil in Hv|].
  destruct (decide (v ∈ vs)) as [Hin|Hnin].
  - unfold fillMap in *. simpl. by apply IH.
  - apply elem_of_cons in Hv as [->|Hv]; [|done].
    change (fillMap tsconfig ubc (w :: vs) cm)
      with (fillMap tsconfig ubc vs (<[w := derivedOptions tsconfig ubc w]> cm)).
    rewrite fillMap_notin; [|done]. by rewrite lookup_insert_eq.
Qed.

Lemma lastPrimaryKind_none vs : forall d,
  primaryCount vs = 0 -> lastPrimaryKind vs d = d.
Proof.
  induction vs as [|v vs IH]; intros d Hc; [done|].
  rewrite primaryCount_cons in Hc. simpl.
  destruct (isPrimary (variantAt v)); [lia|]. apply IH. lia.
Qed.

Lemma lastPrimaryKind_one vs : forall d (p : VariantRef),
  primaryCount vs = 1 -> p ∈ vs -> isPrimary (variantAt p) = true ->
  lastPrimaryKind vs d = Some (moduleKind (variantAt p)).
Proof.
  induction vs as [|v vs IH]; intros d p Hc Hp Hprim; [by apply elem_of_nil in Hp|].
  rewrite primaryCount_cons in Hc. simpl.
  destruct (isPrimary (variantAt v)) eqn:Hv.
  - assert (H0 : primaryCount vs = 0) by lia.
    rewrite lastPrimaryKind_none; [|done].
    apply elem_of_cons in Hp as [->|Hp]; [done|].
    exfalso. unfold primaryCount in H0. apply length_zero_iff_nil in H0.
    assert (Hin : p ∈ filter (fun v => isPrimary (variantAt v) = true) vs)
      by (apply list_elem_of_filter; done).
    rewrite H0 in Hin. by apply elem_of_nil in Hin.
  - apply elem_of_cons in Hp as [->|Hp]; [congruence|]. apply IH; [lia|done|done].
Qed.

(** ** install and uninstall *)

Lemma isInstalled_false m : isInstalled m = false -> _patchedTs m = None.
Proof. unfold isInstalled. by destruct (_patchedTs m). Qed.

Lemma install_succeeds ts tsconfig vs ubc cf m :
  isInstalled m = false -> primaryCount vs <= 1 ->
  install ts tsconfig vs ubc cf m
  = (Normal tt,
     setEmitFiles ts (Some (PatchedEmit (installedClosure ts tsconfig vs ubc cf)))
       (setStatics (Some ts) (emitFiles m !! ts) m)).
Proof.
  intros Hm Hc. apply isInstalled_false in Hm. unfold install. rewrite Hm.
  rewrite buildCompilerOptions_ok; [done | simpl; lia].
Qed.

Lemma install_multiple_primaries ts tsconfig vs ubc cf m :
  isInstalled m = false -> 2 <= primaryCount vs ->
  install ts tsconfig vs ubc cf m
  = (Throw (Error multiplePrimaryMessage), setStatics (Some ts) (emitFiles m !! ts) m).
Proof.
  intros Hm Hc. apply isInstalled_false in Hm. unfold install. rewrite Hm.
  rewrite buildCompilerOptions_multiple; [done | simpl; lia].
Qed.

Lemma install_already_installed ts tsconfig vs ubc cf m :
  isInstalled m = true ->
  install ts tsconfig vs ubc cf m = (Throw (InternalError alreadyInstalledMessage), m).
Proof. unfold isInstalled, install. by destruct (_patchedTs m). Qed.

Lemma install_normal_inv ts tsconfig vs ubc cf m m' :
  install ts tsconfig vs ubc cf m = (Normal tt, m') ->
  isInstalled m = false /\ primaryCount vs <= 1.
Proof.
  intros H. destruct (isInstalled m) eqn:Hm.
  - rewrite install_already_installed in H by done. discriminate.
  - split; [done|]. destruct (decide (primaryCount vs <= 1)) as [|Hn]; [done|].
    rewrite install_multiple_primaries in H by (done || lia). discriminate.
Qed.

(** C4: when [install] accepts a variant list, the configuration stored for
    each variant of the list is the tsconfig's options with [outDir] replaced
    by [cacheOutFolderPath] (build cache in use) or [outFolderPath]
    (otherwise); for the primary variant [module], [declaration],
    [declarationMap] and all other options are those of the tsconfig; for
    every other variant [module] is the variant's module kind and
    [declaration] and [declarationMap] are [false], the other options being
    those of the tsconfig. *)
Theorem install_derives_compiler_options ts tsconfig vs ubc cf m m' :
  install ts tsconfig vs ubc cf m = (Normal tt, m') ->
  exists c,
    emitFiles m' !! ts = Some (PatchedEmit c)
    /\ closure_moduleKindsToEmit c = vs
    /\ forall v : VariantRef, v ∈ vs ->
       exists co,
         closure_compilerOptionsMap c !! v = Some co
         /\ outDir co = Some (if ubc then cacheOutFolderPath (variantAt v)
                              else outFolderPath (variantAt v))
         /\ otherOptions co = otherOptions (options tsconfig)
         /\ (isPrimary (variantAt v) = true ->
             module co = module (options tsconfig)
             /\ declaration co = declaration (options tsconfig)
             /\ declarationMap co = declarationMap (options tsconfig))
         /\ (isPrimary (variantAt v) = false ->
             module co = Some (moduleKind (variantAt v))
             /\ declaration co = Some false
             /\ declarationMap co = Some false).
Proof.
  intros H. destruct (install_normal_inv _ _ _ _ _ _ _ H) as [Hm Hc].
  rewrite install_succeeds in H by done. injection H as <-.
  exists (installedClosure ts tsconfig vs ubc cf). split; [|split].
  - simpl. apply lookup_insert_eq.
  - done.
  - intros v Hv. exists (derivedOptions tsconfig ubc v). split.
    + simpl. by apply fillMap_in.
    + unfold derivedOptions, effectiveOutDir.
      destruct (isPrimary (variantAt v)); simpl; repeat split; intros; congruence.
Qed.

(** C7: while a patch is active, [install] throws the InternalError
    "cannot be called without first uninstalling the existing patch", and the
    state after the failed call is the state before it: [ts.emitFiles] of
    every compiler object, the saved [_baseEmitFiles] and [_patchedTs] are
    what the first installation made them. *)
Theorem install_while_installed_fails ts tsconfig vs ubc cf m :
  isInstalled m = true ->
  install ts tsconfig vs ubc cf m = (Throw (InternalError alreadyInstalledMessage), m).
Proof.
  intros Hm. unfold isInstalled in Hm. unfold install.
  destruct (_patchedTs m) as [patched|]; [reflexivity | discriminate].
Qed.

(** C9: [uninstall] throws "cannot be called if no patch was installed" when
    no patch is active, and "called for the wrong object" when the handle is
    not the one that was installed; the state is unchanged in both cases. *)
Theorem uninstall_failures ts m :
  (isInstalled m = false ->
   uninstall ts m = (Throw (InternalError notInstalledMessage), m))
  /\ (forall patched, _patchedTs m = Some patched -> ts <> patched ->
      uninstall ts m = (Throw (InternalError wrongObjectMessage), m)).
Proof.
  split.
  - intros Hm. apply isInstalled_false in Hm. unfold uninstall. by rewrite Hm.
  - intros patched Hp Hne. unfold uninstall. rewrite Hp. by case_decide.
Qed.

(** C6: from a state with no active patch and for a variant list with exactly
    one primary, [install] succeeds and puts the arrow function into
    [ts.emitFiles]; an immediate [uninstall] of the same handle succeeds,
    [ts.emitFiles] is again the value it had before [install], [isInstalled]
    is false, both statics are empty, and nothing else has changed. *)
Theorem install_then_uninstall_restores ts tsconfig vs ubc cf m :
  isInstalled m = false -> primaryCount vs = 1 ->
  exists m1 m2 c,
    install ts tsconfig vs ubc cf m = (Normal tt, m1)
    /\ emitFiles m1 !! ts = Some (PatchedEmit c)
    /\ isInstalled m1 = true
    /\ uninstall ts m1 = (Normal tt, m2)
    /\ emitFiles m2 !! ts = emitFiles m !! ts
    /\ isInstalled m2 = false
    /\ _patchedTs m2 = None /\ _baseEmitFiles m2 = None
    /\ emitFiles m2 = emitFiles m /\ sets m2 = sets m
    /\ world m2 = world m /\ trace m2 = trace m.
Proof.
  intros Hm Hc.
  assert (Hmap : emitFiles
            (setStatics None None
               (setEmitFiles ts (emitFiles m !! ts)
                  (setEmitFiles ts
                     (Some (PatchedEmit (installedClosure ts tsconfig vs ubc cf)))
                     (setStatics (Some ts) (emitFiles m !! ts) m))))
          = emitFiles m).
  { simpl. destruct (emitFiles m !! ts) as [f|] eqn:Hf.
    - rewrite insert_insert_eq. by apply insert_id.
    - rewrite delete_insert_eq. by apply delete_id. }
  eexists _, _, _. split; [apply install_succeeds; [done | lia]|].
  split; [simpl; apply lookup_insert_eq|]. split; [done|].
  split; [unfold uninstall; simpl; by case_decide|].
  split; [by rewrite Hmap|]. split; [done|]. split; [done|]. split; [done|].
  split; [exact Hmap|]. done.
Qed.

(** ** What a call of an emit function may change *)

Lemma Extends_refl m : Extends m m.
Proof. split; try done. exists []. by rewrite app_nil_r. Qed.

Lemma Extends_trans m1 m2 m3 : Extends m1 m2 -> Extends m2 m3 -> Extends m1 m3.
Proof.
  intros [Hp Hb He Hs [t1 Ht1]] [Hp' Hb' He' Hs' [t2 Ht2]]. split.
  - congruence.
  - congruence.
  - congruence.
  - intros s. etrans; [apply Hs | apply Hs'].
  - exists (t1 ++ t2). rewrite Ht2, Ht1. by rewrite app_assoc.
Qed.

Lemma Extends_logEvent e m : Extends m (logEvent e m).
Proof. split; try done. by exists [e]. Qed.

Lemma Extends_setWorld w m : Extends m (setWorld w m).
Proof. split; try done. exists []. simpl. by rewrite app_nil_r. Qed.

Lemma setContents_setAdd s f s' m :
  setContents s' (setAdd s f m)
  = if decide (s = s') then {[f]} ∪ setContents s m else setContents s' m.
Proof.
  unfold setContents at 1. simpl. rewrite lookup_insert.
  case_decide; [by subst | done].
Qed.

Lemma Extends_setAdd s f m : Extends m (setAdd s f m).
Proof.
  split; try done.
  - intros s'. rewrite setContents_setAdd. case_decide; [subst|]; set_solver.
  - by exists [EvAdd s f].
Qed.

Lemma Extends_recordChangedFile c args m : Extends m (recordChangedFile c args m).
Proof.
  unfold recordChangedFile.
  destruct (targetSourceFile args), (closure_changedFiles c);
    auto using Extends_refl, Extends_setAdd.
Qed.

Lemma fanOut_extends invoke c args :
  InvokeExtends invoke ->
  forall remaining dres sk m out m',
    fanOut invoke c args remaining dres sk m = Some (out, m') -> Extends m m'.
Proof.
  intros Hinv. induction remaining as [|v rest IH]; intros dres sk m out m' H; simpl in H.
  - injection H as _ <-. apply Extends_refl.
  - destruct (closure_compilerOptionsMap c !! v) as [co|];
      [|injection H as _ <-; apply Extends_refl].
    destruct (truthyString (outDir co)); [|injection H as _ <-; apply Extends_refl].
    destruct (_baseEmitFiles m) as [base|]; [|injection H as _ <-; apply Extends_refl].
    destruct (invoke base _ _) as [[[r|e] m1]|] eqn:Hcall; [| |done].
    + apply IH in H. apply Hinv in Hcall.
      eauto using Extends_trans, Extends_logEvent.
    + injection H as _ <-. apply Hinv in Hcall.
      eauto using Extends_trans, Extends_logEvent.
Qed.

Lemma patchedEmitFiles_extends invoke c :
  InvokeExtends invoke -> InvokeExtends (fun _ => patchedEmitFiles invoke c).
Proof.
  intros Hinv _ args m out m' H. unfold patchedEmitFiles in H.
  destruct (passThrough args).
  - destruct (_baseEmitFiles m) as [base|]; [|injection H as _ <-; apply Extends_refl].
    apply Hinv in H. eauto using Extends_trans, Extends_logEvent.
  - apply fanOut_extends in H; [|done].
    eauto using Extends_trans, Extends_recordChangedFile.
Qed.

Lemma callEmitFn_extends fuel : InvokeExtends (callEmitFn fuel).
Proof.
  induction fuel as [|fuel IH]; intros [id|c] args m out m' H; simpl in H.
  - destruct (nativeEmit id args (world m)). injection H as _ <-. apply Extends_setWorld.
  - done.
  - destruct (nativeEmit id args (world m)). injection H as _ <-. apply Extends_setWorld.
  - by apply (patchedEmitFiles_extends _ c IH (PatchedEmit c)) in H.
Qed.

Lemma callEmitFn_native fuel id args m :
  callEmitFn fuel (NativeEmit id) args m
  = Some ((nativeEmit id args (world m)).1, setWorld (nativeEmit id args (world m)).2 m).
Proof. destruct fuel; simpl; by destruct (nativeEmit id args (world m)). Qed.

Lemma passThrough_true args :
  onlyBuildInfo args = Some true \/ emitOnlyDtsFiles args = Some true ->
  passThrough args = true.
Proof.
  unfold passThrough. intros [-> | ->]; simpl; [done|]. apply orb_true_r.
Qed.

Lemma passThrough_false args :
  onlyBuildInfo args <> Some true -> emitOnlyDtsFiles args <> Some true ->
  passThrough args = false.
Proof.
  unfold passThrough, truthy. intros H1 H2.
  destruct (onlyBuildInfo args) as [[]|], (emitOnlyDtsFiles args) as [[]|]; done.
Qed.

(** C3: when [onlyBuildInfo] or [emitOnlyDtsFiles] is set, a call of the arrow
    function while the patch is installed is one call of the saved
    [_baseEmitFiles] with the seven arguments as received (the host included),
    and whatever that call produces. For a saved function of the compiler's
    own this reads: the trace gains the one call, the world makes the step of
    that emitter, and its completion is returned as it is. *)
Theorem pass_through_forwards_once fuel c args m base :
  onlyBuildInfo args = Some true \/ emitOnlyDtsFiles args = Some true ->
  _baseEmitFiles m = Some base ->
  callEmitFn (S fuel) (PatchedEmit c) args m
  = callEmitFn fuel base args (logEvent (EvCall base args) m)
  /\ forall id, base = NativeEmit id ->
      exists m',
        callEmitFn (S fuel) (PatchedEmit c) args m
        = Some ((nativeEmit id args (world m)).1, m')
        /\ trace m' = trace m ++ [EvCall (NativeEmit id) args]
        /\ world m' = (nativeEmit id args (world m)).2
        /\ sets m' = sets m.
Proof.
  intros Hflag Hbase.
  assert (Heq : callEmitFn (S fuel) (PatchedEmit c) args m
                = callEmitFn fuel base args (logEvent (EvCall base args) m)).
  { simpl. unfold patchedEmitFiles. by rewrite (passThrough_true _ Hflag), Hbase. }
  split; [exact Heq|]. intros id ->. rewrite Heq, callEmitFn_native. eauto.
Qed.

(** ** The changed-files set *)

Lemma filter_eq_notin (f : SourceFile) (l : list SourceFile) :
  f ∉ l -> filter (fun x => x = f) l = [].
Proof.
  induction l as [|x l IH]; intros Hf; [done|].
  apply not_elem_of_cons in Hf as [Hne Hf].
  rewrite filter_cons. case_decide; [congruence | by apply IH].
Qed.

Lemma filter_eq_NoDup (f : SourceFile) (l : list SourceFile) :
  NoDup l -> f ∈ l -> length (filter (fun x => x = f) l) = 1.
Proof.
  induction 1 as [|x l Hx Hl IH]; intros Hf; [by apply elem_of_nil in Hf|].
  rewrite filter_cons. case_decide as Hd.
  - subst x. by rewrite filter_eq_notin.
  - apply elem_of_cons in Hf as [->|Hf]; [done | by apply IH].
Qed.

Lemma occurrences_elem_of f s : f ∈ s -> occurrences f s = 1.
Proof.
  intros Hf. apply filter_eq_NoDup; [apply NoDup_elements | by apply elem_of_elements].
Qed.

Lemma fanOut_native_total fuel c args id :
  forall remaining dres sk m,
    _baseEmitFiles m = Some (NativeEmit id) ->
    exists out m',
      fanOut (callEmitFn fuel) c args remaining dres sk m = Some (out, m')
      /\ sets m' = sets m.
Proof.
  induction remaining as [|v rest IH]; intros dres sk m Hbase; simpl; [eauto|].
  destruct (closure_compilerOptionsMap c !! v) as [co|]; [|eauto].
  destruct (truthyString (outDir co)); [|eauto].
  rewrite Hbase, callEmitFn_native.
  destruct (nativeEmit id _ _) as [[r|e] w]; simpl; [|eauto].
  edestruct IH as (out & m' & -> & Hs); [|eauto]. done.
Qed.

(** C10: in a normal call of the arrow function with a target source file,
    installed with a [changedFiles] set, the first thing the call does is add
    the file to the set: the [EvAdd] entry precedes every entry the call adds
    to the trace, so every call of [_baseEmitFiles]. However the call
    completes, by returning or by throwing, the set holds the file, once.
    When the saved function is the compiler's own the call does complete, and
    the set is the old set with the file added, the same set when the file
    was already in it. *)
Theorem changed_file_recorded_first fuel c args m file set :
  onlyBuildInfo args <> Some true -> emitOnlyDtsFiles args <> Some true ->
  targetSourceFile args = Some file -> closure_changedFiles c = Some set ->
  (forall out m',
     callEmitFn (S fuel) (PatchedEmit c) args m = Some (out, m') ->
     file ∈ setContents set m'
     /\ occurrences file (setContents set m') = 1
     /\ exists suffix, trace m' = trace m ++ EvAdd set file :: suffix)
  /\ (forall id, _baseEmitFiles m = Some (NativeEmit id) ->
      exists out m',
        callEmitFn (S fuel) (PatchedEmit c) args m = Some (out, m')
        /\ setContents set m' = {[file]} ∪ setContents set m
        /\ (file ∈ setContents set m -> setContents set m' = setContents set m)).
Proof.
  intros Hb Hd Hfile Hset.
  assert (Hcall : callEmitFn (S fuel) (PatchedEmit c) args m
                  = fanOut (callEmitFn fuel) c args (closure_moduleKindsToEmit c) None false
                      (setAdd set file m)).
  { simpl. unfold patchedEmitFiles, recordChangedFile.
    by rewrite (passThrough_false _ Hb Hd), Hfile, Hset. }
  rewrite Hcall. split.
  - intros out m' H. apply fanOut_extends in H; [|apply callEmitFn_extends].
    destruct H as [_ _ _ Hs [suffix Ht]].
    assert (Hin : file ∈ setContents set m').
    { apply (Hs set). rewrite setContents_setAdd. case_decide; [|done]. set_solver. }
    split; [done|]. split; [by apply occurrences_elem_of|].
    exists suffix. rewrite Ht. simpl. by rewrite <- app_assoc.
  - intros id Hbase.
    destruct (fanOut_native_total fuel c args id (closure_moduleKindsToEmit c) None false
                (setAdd set file m) Hbase) as (out & m' & -> & Hs).
    exists out, m'. split; [done|].
    assert (Hc : setContents set m' = {[file]} ∪ setContents set m).
    { unfold setContents at 1. rewrite Hs. fold (setContents set (setAdd set file m)).
      rewrite setContents_setAdd. by case_decide. }
    split; [done|]. intros Hin. rewrite Hc. apply subseteq_union_1_L, singleton_subseteq_l, Hin.
Qed.

(** ** The fan-out *)

Lemma FlavorRuns_length invoke ts tsconfig ubc args base vs m rs m' :
  FlavorRuns invoke ts tsconfig ubc args base vs m rs m' -> length rs = length vs.
Proof. induction 1; simpl; congruence. Qed.

Lemma pickDefault_spec dmk vs :
  forall rs acc, length rs = length vs ->
    (exists i v r,
        vs !! i = Some v /\ rs !! i = Some r
        /\ Some (moduleKind (variantAt v)) = dmk
        /\ (forall j w, i < j -> vs !! j = Some w -> Some (moduleKind (variantAt w)) <> dmk)
        /\ pickDefault dmk vs rs acc = Some r)
    \/ ((forall w : VariantRef, w ∈ vs -> Some (moduleKind (variantAt w)) <> dmk)
        /\ pickDefault dmk vs rs acc = acc).
Proof.
  induction vs as [|v vs IH]; intros rs acc Hlen.
  - right. split; [|done]. intros w Hw. by apply elem_of_nil in Hw.
  - destruct rs as [|r rs]; [done|]. simpl in Hlen. simpl.
    destruct (IH rs (if decide (Some (moduleKind (variantAt v)) = dmk) then Some r else acc))
      as [(i & w & r' & Hv & Hr & Hk & Hlast & Hpick) | [Hnone Hpick]]; [lia | |].
    + left. exists (S i), w, r'. repeat split; try done.
      intros j w' Hj Hw'. destruct j as [|j]; [lia|]. apply (Hlast j); [lia|done].
    + rewrite Hpick. case_decide as Hd.
      * left. exists 0, v, r. repeat split; try done.
        intros j w Hj Hw. destruct j as [|j]; [lia|].
        apply Hnone, list_elem_of_lookup. by exists j.
      * right. split; [|done]. intros w Hw.
        apply elem_of_cons in Hw as [->|Hw]; [done | by apply Hnone].
Qed.

Lemma truthyString_Some s : s <> EmptyString -> truthyString (Some s) = true.
Proof. by destruct s. Qed.

Lemma outDir_derivedOptions tsconfig ubc v :
  outDir (derivedOptions tsconfig ubc v) = Some (effectiveOutDir ubc (variantAt v)).
Proof. unfold derivedOptions. by destruct (isPrimary (variantAt v)). Qed.

(** The loop invariant: after the calls for a prefix of the list have
    returned, the loop continues on the rest with the accumulated flag and
    the picked result. *)
Lemma fanOut_prefix fuel c tsconfig ubc args base rest :
  forall pre dres sk m rs m',
    (forall v : VariantRef, v ∈ pre ->
       closure_compilerOptionsMap c !! v = Some (derivedOptions tsconfig ubc v)
       /\ effectiveOutDir ubc (variantAt v) <> EmptyString) ->
    _baseEmitFiles m = Some base ->
    FlavorRuns (callEmitFn fuel) (closure_ts c) tsconfig ubc args base pre m rs m' ->
    fanOut (callEmitFn fuel) c args (pre ++ rest) dres sk m
    = fanOut (callEmitFn fuel) c args rest
        (pickDefault (closure_defaultModuleKind c) pre rs dres)
        (sk || existsb emitSkipped rs) m'
      /\ _baseEmitFiles m' = Some base.
Proof.
  induction pre as [|v pre IH]; intros dres sk m rs m' Hpre Hbase Hruns;
    inversion Hruns as [|? ? ? r m1 rs' ? Hcall Hrest]; subst.
  - simpl. by rewrite orb_false_r.
  - destruct (Hpre v) as [Hco Hdir]; [apply elem_of_cons; by left|].
    assert (Hbase1 : _baseEmitFiles m1 = Some base).
    { apply callEmitFn_extends in Hcall. destruct Hcall as [_ Hb _ _ _].
      by rewrite Hb. }
    simpl. rewrite Hco, outDir_derivedOptions, (truthyString_Some _ Hdir), Hbase, Hcall.
    rewrite orb_assoc. apply IH; [|done|done].
    intros w Hw. apply Hpre, elem_of_cons. by right.
Qed.

Lemma installedClosure_lookup ts tsconfig vs ubc cf (v : VariantRef) :
  v ∈ vs ->
  closure_compilerOptionsMap (installedClosure ts tsconfig vs ubc cf) !! v
  = Some (derivedOptions tsconfig ubc v).
Proof. intros Hv. simpl. by apply fillMap_in. Qed.

Lemma install_closure ts tsconfig vs ubc cf m0 m1 fn :
  install ts tsconfig vs ubc cf m0 = (Normal tt, m1) ->
  emitFiles m1 !! ts = Some fn ->
  fn = PatchedEmit (installedClosure ts tsconfig vs ubc cf).
Proof.
  intros H Hfn. destruct (install_normal_inv _ _ _ _ _ _ _ H) as [Hm Hc].
  rewrite install_succeeds in H by done. injection H as <-.
  simpl in Hfn. rewrite lookup_insert_eq in Hfn. congruence.
Qed.

Lemma primaryCount_elem_of vs (p : VariantRef) :
  p ∈ vs -> isPrimary (variantAt p) = true -> 1 <= primaryCount vs.
Proof.
  intros Hp Hprim. unfold primaryCount.
  assert (Hin : p ∈ filter (fun v => isPrimary (variantAt v) = true) vs)
    by (apply list_elem_of_filter; done).
  destruct (filter _ vs); [by apply elem_of_nil in Hin | simpl; lia].
Qed.

Lemma callEmitFn_normal_call fuel c args m :
  onlyBuildInfo args <> Some true -> emitOnlyDtsFiles args <> Some true ->
  callEmitFn (S fuel) (PatchedEmit c) args m
  = fanOut (callEmitFn fuel) c args (closure_moduleKindsToEmit c) None false
      (recordChangedFile c args m).
Proof.
  intros Hb Hd. simpl. unfold patchedEmitFiles. by rewrite (passThrough_false _ Hb Hd).
Qed.

(** C1: let [install] have accepted a variant list with a primary variant [p]
    (hence exactly one) and non-empty effective output paths, and let a normal
    call of the installed arrow function find the per-variant calls of the
    saved function all returning, with results [rs]. Then the call returns a
    result whose [emitSkipped] is the disjunction of the [emitSkipped] flags
    of [rs], and whose [diagnostics] and [emittedFiles] are those of the
    result of a variant with the primary's module kind: the last such variant
    of the list, which is the primary itself when the module kinds of the list
    are pairwise distinct. *)
Theorem fan_out_merges_results fuel ts tsconfig vs ubc cf m0 m1 c args m base p rs m' :
  install ts tsconfig vs ubc cf m0 = (Normal tt, m1) ->
  emitFiles m1 !! ts = Some (PatchedEmit c) ->
  p ∈ vs -> isPrimary (variantAt p) = true ->
  (forall v : VariantRef, v ∈ vs -> effectiveOutDir ubc (variantAt v) <> EmptyString) ->
  onlyBuildInfo args <> Some true -> emitOnlyDtsFiles args <> Some true ->
  _baseEmitFiles m = Some base ->
  FlavorRuns (callEmitFn fuel) ts tsconfig ubc args base vs
    (recordChangedFile c args m) rs m' ->
  exists res,
    callEmitFn (S fuel) (PatchedEmit c) args m = Some (Normal res, m')
    /\ emitSkipped res = existsb emitSkipped rs
    /\ exists i v r,
        vs !! i = Some v /\ rs !! i = Some r
        /\ moduleKind (variantAt v) = moduleKind (variantAt p)
        /\ (forall j w, i < j -> vs !! j = Some w ->
            moduleKind (variantAt w) <> moduleKind (variantAt p))
        /\ diagnostics res = diagnostics r
        /\ emittedFiles res = emittedFiles r
        /\ (NoDup (map (fun w => moduleKind (variantAt w)) vs) -> v = p).
Proof.
  intros Hinst Hfn Hp Hprim Hdirs Hb Hd Hbase Hruns.
  destruct (install_normal_inv _ _ _ _ _ _ _ Hinst) as [_ Hle].
  pose proof (primaryCount_elem_of _ _ Hp Hprim) as Hge.
  apply (install_closure _ _ _ _ _ _ _ _ Hinst) in Hfn. injection Hfn as ->.
  assert (Hdmk : closure_defaultModuleKind (installedClosure ts tsconfig vs ubc cf)
                 = Some (moduleKind (variantAt p))).
  { simpl. apply lastPrimaryKind_one; [lia|done|done]. }
  assert (Hbase0 : _baseEmitFiles
                     (recordChangedFile (installedClosure ts tsconfig vs ubc cf) args m)
                   = Some base).
  { destruct (Extends_recordChangedFile (installedClosure ts tsconfig vs ubc cf) args m)
      as [_ Hx _ _ _]. by rewrite Hx. }
  rewrite callEmitFn_normal_call by done.
  change (closure_moduleKindsToEmit (installedClosure ts tsconfig vs ubc cf)) with vs.
  destruct (fanOut_prefix fuel (installedClosure ts tsconfig vs ubc cf) tsconfig ubc args base []
              vs None false
              (recordChangedFile (installedClosure ts tsconfig vs ubc cf) args m) rs m')
    as [Hfan _]; [|done|done|].
  { intros v Hv. split; [by apply installedClosure_lookup | by apply Hdirs]. }
  rewrite app_nil_r, Hdmk in Hfan. rewrite Hfan. simpl fanOut. eexists. split; [done|].
  destruct (pickDefault_spec (Some (moduleKind (variantAt p))) vs rs None
              (FlavorRuns_length _ _ _ _ _ _ _ _ _ _ Hruns))
    as [(i & v & r & Hv & Hr & Hk & Hlast & ->) | [Hnone _]].
  - split; [done|]. exists i, v, r. injection Hk as Hk.
    repeat split; try done.
    + intros j w Hj Hw Heq. apply (Hlast j w Hj Hw). by rewrite Heq.
    + intros Hnd. apply list_elem_of_lookup in Hp as [k Hpk].
      assert (Hik : i = k).
      { eapply NoDup_lookup; [exact Hnd| |].
        - rewrite list_lookup_fmap, Hv. done.
        - rewrite list_lookup_fmap, Hpk. simpl. by rewrite Hk. }
      subst k. congruence.
  - exfalso. by apply (Hnone p Hp).
Qed.

(** C8, as amended: [install] checks neither the module kinds for duplicates
    nor the output paths: from a state without patch it accepts every variant
    list with exactly one primary. An empty effective output path is found by
    a normal call of the arrow function, which throws the InternalError
    "Expected compilerOptions.outDir to be assigned" when the loop reaches
    the first variant with such a path, after the saved function has been
    called, and has returned, for every variant before it. *)
Theorem output_path_checked_during_emit fuel ts tsconfig vs ubc cf m0 :
  isInstalled m0 = false -> primaryCount vs = 1 ->
  exists m1 c,
    install ts tsconfig vs ubc cf m0 = (Normal tt, m1)
    /\ emitFiles m1 !! ts = Some (PatchedEmit c)
    /\ forall pre v post args m base rs m',
        vs = pre ++ v :: post ->
        (forall w : VariantRef, w ∈ pre -> effectiveOutDir ubc (variantAt w) <> EmptyString) ->
        effectiveOutDir ubc (variantAt v) = EmptyString ->
        onlyBuildInfo args <> Some true -> emitOnlyDtsFiles args <> Some true ->
        _baseEmitFiles m = Some base ->
        FlavorRuns (callEmitFn fuel) ts tsconfig ubc args base pre
          (recordChangedFile c args m) rs m' ->
        callEmitFn (S fuel) (PatchedEmit c) args m
        = Some (Throw (InternalError outDirMessage), m').
Proof.
  intros Hm Hc. eexists _, _. split; [apply install_succeeds; [done|lia]|].
  split; [simpl; apply lookup_insert_eq|].
  intros pre v post args m base rs m' Hvs Hpre Hv Hb Hd Hbase Hruns.
  assert (Hbase0 : _baseEmitFiles
                     (recordChangedFile (installedClosure ts tsconfig vs ubc cf) args m)
                   = Some base).
  { destruct (Extends_recordChangedFile (installedClosure ts tsconfig vs ubc cf) args m)
      as [_ Hx _ _ _]. by rewrite Hx. }
  rewrite callEmitFn_normal_call by done.
  change (closure_moduleKindsToEmit (installedClosure ts tsconfig vs ubc cf)) with vs.
  destruct (fanOut_prefix fuel (installedClosure ts tsconfig vs ubc cf) tsconfig ubc args base
              (v :: post) pre None false
              (recordChangedFile (installedClosure ts tsconfig vs ubc cf) args m) rs m')
    as [Hfan _]; [|done|done|].
  { intros w Hw. split; [|by apply Hpre].
    apply installedClosure_lookup. rewrite Hvs. apply elem_of_app. by left. }
  rewrite <- Hvs in Hfan. rewrite Hfan. simpl fanOut. rewrite fillMap_in.
  - by rewrite outDir_derivedOptions, Hv.
  - rewrite Hvs. apply elem_of_app. right. apply elem_of_cons. by left.
Qed.

(** ** Further properties of install and uninstall *)

Lemma setEmitFiles_saved ts m :
  emitFiles (setEmitFiles ts (emitFiles m !! ts) m) = emitFiles m.
Proof.
  simpl. destruct (emitFiles m !! ts) as [f|] eqn:Hf.
  - by apply insert_id.
  - by apply delete_id.
Qed.

Lemma setEmitFiles_other ts (ts' : TsHandle) f m :
  ts' <> ts -> emitFiles (setEmitFiles ts f m) !! ts' = emitFiles m !! ts'.
Proof.
  intros Hne. simpl. destruct f as [fn|].
  - by rewrite lookup_insert_ne.
  - by rewrite lookup_delete_ne.
Qed.

(** X1: with no patch active, a list with two or more primary entries (the
    same primary object listed twice included) makes [install] throw the Error
    "Multiple primary module emit kinds encountered."; [emitFiles] of every
    compiler object, the sets, the world and the trace are as before. *)
Theorem install_rejects_multiple_primaries ts tsconfig vs ubc cf m :
  isInstalled m = false -> 2 <= primaryCount vs ->
  exists m',
    install ts tsconfig vs ubc cf m = (Throw (Error multiplePrimaryMessage), m')
    /\ emitFiles m' = emitFiles m
    /\ sets m' = sets m /\ world m' = world m /\ trace m' = trace m.
Proof.
  intros Hm Hc. eexists. split; [by apply install_multiple_primaries|]. done.
Qed.

(** X2: [install] returns normally exactly when no patch is active and the
    list has at most one primary entry. *)
Theorem install_accepts_iff ts tsconfig vs ubc cf m :
  (exists m', install ts tsconfig vs ubc cf m = (Normal tt, m'))
  <-> isInstalled m = false /\ primaryCount vs <= 1.
Proof.
  split.
  - intros [m' H]. by apply install_normal_inv in H.
  - intros [Hm Hc]. eexists. by apply install_succeeds.
Qed.

(** X3: whatever its outcome, [install] leaves [emitFiles] of every other
    compiler object, every set, the world and the trace untouched. *)
Theorem install_frame ts tsconfig vs ubc cf m (ts' : TsHandle) :
  ts' <> ts ->
  emitFiles (install ts tsconfig vs ubc cf m).2 !! ts' = emitFiles m !! ts'
  /\ sets (install ts tsconfig vs ubc cf m).2 = sets m
  /\ world (install ts tsconfig vs ubc cf m).2 = world m
  /\ trace (install ts tsconfig vs ubc cf m).2 = trace m.
Proof.
  intros Hne. destruct (isInstalled m) eqn:Hm.
  - by rewrite install_already_installed.
  - destruct (decide (primaryCount vs <= 1)) as [Hc|Hc].
    + rewrite install_succeeds by done. cbn [snd]. split; [|done].
      by rewrite setEmitFiles_other.
    + by rewrite install_multiple_primaries by (done || lia).
Qed.

(** X4: the map built by an accepted [install] has an entry for a variant
    exactly when the variant is in the list. *)
Theorem install_options_map_domain ts tsconfig vs ubc cf m m' c :
  install ts tsconfig vs ubc cf m = (Normal tt, m') ->
  emitFiles m' !! ts = Some (PatchedEmit c) ->
  forall v : VariantRef, is_Some (closure_compilerOptionsMap c !! v) <-> v ∈ vs.
Proof.
  intros H Hfn v. apply (install_closure _ _ _ _ _ _ _ _ H) in Hfn. injection Hfn as ->.
  simpl. destruct (decide (v ∈ vs)) as [Hin|Hnin].
  - rewrite fillMap_in by done. split; [done | by eexists].
  - rewrite fillMap_notin by done. rewrite lookup_empty. split; [by intros [? ?] | done].
Qed.

(** X5: [uninstall] returns normally exactly when its argument is the patched
    compiler object; it then assigns the saved [_baseEmitFiles] to
    [ts.emitFiles], clears both statics and touches nothing else. *)
Theorem uninstall_succeeds_iff ts m :
  ((exists m', uninstall ts m = (Normal tt, m')) <-> _patchedTs m = Some ts)
  /\ forall m', uninstall ts m = (Normal tt, m') ->
       emitFiles m' !! ts = _baseEmitFiles m
       /\ (forall ts' : TsHandle, ts' <> ts -> emitFiles m' !! ts' = emitFiles m !! ts')
       /\ _patchedTs m' = None /\ _baseEmitFiles m' = None
       /\ sets m' = sets m /\ world m' = world m /\ trace m' = trace m.
Proof.
  unfold uninstall. destruct (_patchedTs m) as [patched|] eqn:Hp.
  - case_decide as Hd.
    + subst patched. split; [split; [done | by eexists]|].
      intros m' H. injection H as <-. split.
      { simpl. destruct (_baseEmitFiles m); [apply lookup_insert_eq | apply lookup_delete_eq]. }
      split; [|done]. intros ts' Hne.
      apply (setEmitFiles_other ts ts' (_baseEmitFiles m) m Hne).
    + split; [|done]. split; [by intros [? ?] | congruence].
  - split; [|done]. split; [by intros [? ?] | done].
Qed.

(** X6: the statics that a rejected [install] leaves behind are cleared by
    [uninstall] of the same compiler object, which restores the state from
    before the [install]. *)
Theorem uninstall_clears_rejected_install ts tsconfig vs ubc cf m :
  isInstalled m = false -> 2 <= primaryCount vs ->
  exists e m1 m2,
    install ts tsconfig vs ubc cf m = (Throw e, m1)
    /\ uninstall ts m1 = (Normal tt, m2)
    /\ isInstalled m2 = false /\ _baseEmitFiles m2 = None
    /\ emitFiles m2 = emitFiles m
    /\ sets m2 = sets m /\ world m2 = world m /\ trace m2 = trace m.
Proof.
  intros Hm Hc. eexists _, _, _.
  split; [by apply install_multiple_primaries|].
  split; [unfold uninstall; simpl; by case_decide|].
  split; [done|]. split; [done|]. split; [|done].
  apply (setEmitFiles_saved ts m).
Qed.

(** ** Further properties of the arrow function *)

(** X7: a call of an emit function, whatever it is and however it completes,
    leaves [_patchedTs], [_baseEmitFiles] and [emitFiles] of every compiler
    object as they were, removes no file from any set, and only appends to the
    trace. *)
Theorem emit_call_keeps_patch_state fuel fn args m out m' :
  callEmitFn fuel fn args m = Some (out, m') ->
  _patchedTs m' = _patchedTs m
  /\ _baseEmitFiles m' = _baseEmitFiles m
  /\ emitFiles m' = emitFiles m
  /\ (forall (s : SetRef) (f : SourceFile), f ∈ setContents s m -> f ∈ setContents s m')
  /\ exists suffix, trace m' = trace m ++ suffix.
Proof.
  intros H. apply callEmitFn_extends in H. destruct H as [Hp Hb He Hs Ht].
  split; [done|]. split; [done|]. split; [done|]. split; [|done].
  intros s f Hf. by apply (Hs s).
Qed.

(** X8: no [try] surrounds the per-variant calls: when the calls for the
    variants before [v] have returned and the call for [v] throws, the arrow
    function throws the same value in the state that call left; the variants
    after [v] are not emitted. *)
Theorem fan_out_propagates_throw fuel ts tsconfig vs ubc cf m0 m1 c args m base
    pre v post rs ma e m' :
  install ts tsconfig vs ubc cf m0 = (Normal tt, m1) ->
  emitFiles m1 !! ts = Some (PatchedEmit c) ->
  vs = pre ++ v :: post ->
  (forall w : VariantRef, w ∈ pre ++ [v] -> effectiveOutDir ubc (variantAt w) <> EmptyString) ->
  onlyBuildInfo args <> Some true -> emitOnlyDtsFiles args <> Some true ->
  _baseEmitFiles m = Some base ->
  FlavorRuns (callEmitFn fuel) ts tsconfig ubc args base pre
    (recordChangedFile c args m) rs ma ->
  callEmitFn fuel base (flavorArgs ts args (derivedOptions tsconfig ubc v))
    (logEvent (EvCall base (flavorArgs ts args (derivedOptions tsconfig ubc v))) ma)
  = Some (Throw e, m') ->
  callEmitFn (S fuel) (PatchedEmit c) args m = Some (Throw e, m').
Proof.
  intros Hinst Hfn Hvs Hdirs Hb Hd Hbase Hruns Hthrow.
  apply (install_closure _ _ _ _ _ _ _ _ Hinst) in Hfn. injection Hfn as ->.
  assert (Hbase0 : _baseEmitFiles
                     (recordChangedFile (installedClosure ts tsconfig vs ubc cf) args m)
                   = Some base).
  { destruct (Extends_recordChangedFile (installedClosure ts tsconfig vs ubc cf) args m)
      as [_ Hx _ _ _]. by rewrite Hx. }
  rewrite callEmitFn_normal_call by done.
  change (closure_moduleKindsToEmit (installedClosure ts tsconfig vs ubc cf)) with vs.
  destruct (fanOut_prefix fuel (installedClosure ts tsconfig vs ubc cf) tsconfig ubc args base
              (v :: post) pre None false
              (recordChangedFile (installedClosure ts tsconfig vs ubc cf) args m) rs ma)
    as [Hfan Hbase1]; [|done|done|].
  { intros w Hw. split.
    - apply installedClosure_lookup. rewrite Hvs. apply elem_of_app. by left.
    - apply Hdirs, elem_of_app. by left. }
  rewrite <- Hvs in Hfan. rewrite Hfan. simpl fanOut.
  rewrite fillMap_in by (rewrite Hvs; apply elem_of_app; right; apply elem_of_cons; by left).
  rewrite outDir_derivedOptions, truthyString_Some, Hbase1.
  - by rewrite Hthrow.
  - apply Hdirs, elem_of_app. right. apply elem_of_cons. by left.
Qed.



(** X10: with the compiler's own emitter saved, a call of the arrow function
    leaves every set as it was when it is a pass-through call, when it has no
    target source file, or when no [changedFiles] set was given to [install]. *)
Theorem changed_files_untouched fuel c args m id :
  _baseEmitFiles m = Some (NativeEmit id) ->
  onlyBuildInfo args = Some true \/ emitOnlyDtsFiles args = Some true
  \/ targetSourceFile args = None \/ closure_changedFiles c = None ->
  exists out m',
    callEmitFn (S fuel) (PatchedEmit c) args m = Some (out, m') /\ sets m' = sets m.
Proof.
  intros Hbase Hcase.
  change (callEmitFn (S fuel) (PatchedEmit c) args m)
    with (patchedEmitFiles (callEmitFn fuel) c args m).
  unfold patchedEmitFiles. destruct (passThrough args) eqn:Hpass.
  - rewrite Hbase. cbn beta iota. rewrite callEmitFn_native. eauto.
  - assert (Hrec : recordChangedFile c args m = m).
    { unfold recordChangedFile.
      destruct Hcase as [H|[H|[H|H]]].
      - rewrite passThrough_true in Hpass by (by left). discriminate.
      - rewrite passThrough_true in Hpass by (by right). discriminate.
      - by rewrite H.
      - rewrite H. by destruct (targetSourceFile args). }
    rewrite Hrec. by apply (fanOut_native_total fuel c args id).
Qed.

(** X11: the arrow function reads [_baseEmitFiles] when it is called. Kept
    and called after [uninstall], it throws a TypeError: at once in a
    pass-through call, and in a normal call after it has recorded the changed
    file, when the list starts with a variant that has an output path. *)
Theorem arrow_function_after_uninstall fuel ts tsconfig vs ubc cf m m1 c m2 args :
  install ts tsconfig vs ubc cf m = (Normal tt, m1) ->
  emitFiles m1 !! ts = Some (PatchedEmit c) ->
  uninstall ts m1 = (Normal tt, m2) ->
  (onlyBuildInfo args = Some true \/ emitOnlyDtsFiles args = Some true ->
   callEmitFn (S fuel) (PatchedEmit c) args m2 = Some (Throw TypeError, m2))
  /\ (forall v rest,
        onlyBuildInfo args <> Some true -> emitOnlyDtsFiles args <> Some true ->
        vs = v :: rest -> effectiveOutDir ubc (variantAt v) <> EmptyString ->
        callEmitFn (S fuel) (PatchedEmit c) args m2
        = Some (Throw TypeError, recordChangedFile c args m2)).
Proof.
  intros Hinst Hfn Hun.
  apply (install_closure _ _ _ _ _ _ _ _ Hinst) in Hfn. injection Hfn as ->.
  assert (Hbase : _baseEmitFiles m2 = None).
  { unfold uninstall in Hun. destruct (_patchedTs m1); [|discriminate].
    case_decide; [|discriminate]. by injection Hun as <-. }
  split.
  - intros Hflag. simpl. unfold patchedEmitFiles.
    by rewrite (passThrough_true _ Hflag), Hbase.
  - intros v rest Hb Hd Hvs Hdir. subst vs. rewrite callEmitFn_normal_call by done.
    change (closure_moduleKindsToEmit (installedClosure ts tsconfig (v :: rest) ubc cf))
      with (v :: rest).
    assert (Hbase' : _baseEmitFiles
                       (recordChangedFile (installedClosure ts tsconfig (v :: rest) ubc cf)
                          args m2)
                     = None).
    { destruct (Extends_recordChangedFile (installedClosure ts tsconfig (v :: rest) ubc cf)
                  args m2) as [_ Hx _ _ _]. by rewrite Hx. }
    cbn [fanOut]. rewrite installedClosure_lookup by (apply elem_of_cons; by left).
    by rewrite outDir_derivedOptions, (truthyString_Some _ Hdir), Hbase'.
Qed.

End Properties.

(** * Properties of the command line *)

Section CommandLineProperties.

Context {Err Ext : Type}.
Variable external : ExternalCall -> @Process Ext -> @Completion Err unit * @Process Ext.
Variable toString : @Exn Err -> string.
Variable stack : @Exn Err -> string.

Implicit Types s : @Run Ext.
Implicit Types p : @Process Ext.
Implicit Types e error : @Exn Err.
Implicit Types r : @Result Err unit.

Local Abbreviation Action := (@Action Err Ext).
Local Abbreviation callExternal := (callExternal external).
Local Abbreviation callAll := (callAll external).
Local Abbreviation _normalizeCwd := (_normalizeCwd external).
Local Abbreviation initializeEach := (initializeEach external).
Local Abbreviation _initializePlugins := (_initializePlugins external).
Local Abbreviation _reportErrorAndSetExitCode :=
  (_reportErrorAndSetExitCode external toString stack).
Local Abbreviation onExecute := (onExecute external toString stack).
Local Abbreviation reportCalls := (reportCalls toString stack).
Local Abbreviation externalsKeepExitCode := (externalsKeepExitCode external).
Local Abbreviation writesKeepCwd := (writesKeepCwd external).
Local Abbreviation chdirSetsCwd := (chdirSetsCwd external).

Lemma andThen_inv {A B : Type} (m : Action A) (k : Action B) s (r : @Result Err B) s' :
  andThen m k s = (r, s') ->
  (exists a s1, m s = (Ok a, s1) /\ k s1 = (r, s'))
  \/ (exists e, m s = (Raise e, s') /\ r = Raise e)
  \/ (exists code, m s = (Exit code, s') /\ r = Exit code).
Proof.
  unfold andThen, bind. destruct (m s) as [[a|e|code] s1]; intros H.
  - left. eauto.
  - right. left. injection H as <- <-. eauto.
  - right. right. injection H as <- <-. eauto.
Qed.

Lemma andThen_Ok {A B : Type} (m : Action A) (k : Action B) s (b : B) s' :
  andThen m k s = (Ok b, s') ->
  exists a s1, m s = (Ok a, s1) /\ k s1 = (Ok b, s').
Proof.
  intros H. apply andThen_inv in H as [H|[(e & _ & H)|(code & _ & H)]];
    [done | discriminate | discriminate].
Qed.

Lemma callExternal_inv c s r s' :
  callExternal c s = (r, s') ->
  (exists p, external c (process s) = (Normal tt, p) /\ r = Ok tt
             /\ s' = {| process := p; calls := calls s ++ [(c, true)] |})
  \/ (exists e p, external c (process s) = (Throw e, p) /\ r = Raise e
                  /\ s' = {| process := p; calls := calls s ++ [(c, false)] |}).
Proof.
  unfold callExternal. destruct (external c (process s)) as [[[]|e] p]; intros H;
    injection H as <- <-; [left | right]; eauto.
Qed.

Lemma callExternal_Ok c s s' :
  callExternal c s = (Ok tt, s') ->
  calls s' = calls s ++ [returned c]
  /\ external c (process s) = (Normal tt, process s').
Proof.
  intros H. apply callExternal_inv in H as [(p & Hx & _ & ->)|(e & p & _ & H & _)];
    [done | discriminate].
Qed.

Lemma andThen_ext {A B : Type} (m : Action A) (k k' : Action B) s :
  (forall s1, k s1 = k' s1) -> andThen m k s = andThen m k' s.
Proof.
  intros Hk. unfold andThen, bind. destruct (m s) as [[a|e|code] s1]; [apply Hk|done|done].
Qed.

Lemma andThen_assoc {A B C : Type} (m : Action A) (k : Action B) (l : Action C) s :
  andThen (andThen m k) l s = andThen m (andThen k l) s.
Proof. unfold andThen, bind. by destruct (m s) as [[a|e|code] s1]. Qed.

Lemma callAll_app cs ds s : callAll (cs ++ ds) s = andThen (callAll cs) (callAll ds) s.
Proof.
  revert s. induction cs as [|c cs IH]; intros s; [done|].
  simpl. rewrite andThen_assoc. by apply andThen_ext.
Qed.

Lemma callAll_spec cs : forall s r s',
  callAll cs s = (r, s') ->
  (r = Ok tt /\ calls s' = calls s ++ map returned cs)
  \/ (exists e done failed rest p0,
        r = Raise e /\ cs = done ++ failed :: rest
        /\ calls s' = calls s ++ map returned done ++ [(failed, false)]
        /\ external failed p0 = (Throw e, process s')).
Proof.
  induction cs as [|c cs IH]; intros s r s' H; simpl in H.
  - injection H as <- <-. left. by rewrite app_nil_r.
  - apply andThen_inv in H as [(a & s1 & Hc & Hrest)|[(e & Hc & ->)|(code & Hc & _)]].
    + destruct a. apply callExternal_Ok in Hc as [Hcalls _].
      apply IH in Hrest as [[-> Hr]|(e & done & failed & rest & p0 & -> & -> & Hr & Hx)].
      * left. split; [done|]. rewrite Hr, Hcalls. simpl. by rewrite <- app_assoc.
      * right. exists e, (c :: done), failed, rest, p0. repeat split; try done.
        rewrite Hr, Hcalls. simpl. by rewrite <- app_assoc.
    + apply callExternal_inv in Hc as [(p & _ & H & _)|(e' & p & Hx & He & ->)];
        [discriminate|]. injection He as <-.
      right. exists e, [], c, cs, (process s). repeat split; done.
    + apply callExternal_inv in Hc as [(p & _ & H & _)|(e' & p & _ & H & _)]; discriminate.
Qed.

Lemma initializeEach_callAll l s :
  initializeEach l s = callAll (map InitializePlugin l) s.
Proof.
  revert s. induction l as [|x l IH]; intros s; [done|]. simpl. by apply andThen_ext.
Qed.

Lemma initializePlugins_callAll l s :
  _initializePlugins l s = callAll (initializeCalls l) s.
Proof.
  unfold _initializePlugins, initializeCalls. simpl.
  apply andThen_ext. intros s1. apply andThen_ext. apply initializeEach_callAll.
Qed.

(** X12: [_initializePlugins] initialises the default plugins, then the
    plugins of the configuration file, then the plugins named on the command
    line in the order given. It stops at the first of these calls that
    throws, and throws what that call threw; it never ends the process. *)
Theorem initializePlugins_in_order pluginSpecifiers s r s' :
  _initializePlugins pluginSpecifiers s = (r, s') ->
  (r = Ok tt /\ calls s' = calls s ++ map returned (initializeCalls pluginSpecifiers))
  \/ (exists e done failed rest p0,
        r = Raise e
        /\ initializeCalls pluginSpecifiers = done ++ failed :: rest
        /\ calls s' = calls s ++ map returned done ++ [(failed, false)]
        /\ external failed p0 = (Throw e, process s')).
Proof. rewrite initializePlugins_callAll. apply callAll_spec. Qed.

Lemma reportError_callAll this error s :
  _reportErrorAndSetExitCode this error s
  = andThen (callAll (reportCalls this error))
      (bind getProcess (fun p =>
         if unsetOrPositive (exitCode p) then processExit (exitCode p)
         else processExit (Some 1%Z))) s.
Proof.
  unfold _reportErrorAndSetExitCode, reportCalls.
  destruct (isDebug this); simpl; unfold andThen, bind, ret;
    repeat (match goal with
            | |- context [callExternal ?c ?s0] =>
                destruct (callExternal c s0) as [[[]|?|?] ?]
            end; try reflexivity).
Qed.


Lemma reportError_not_Ok this error s s' :
  _reportErrorAndSetExitCode this error s <> (Ok tt, s').
Proof.
  rewrite reportError_callAll. intros H. apply andThen_Ok in H as (a & s1 & _ & H).
  unfold bind, getProcess, processExit in H.
  by destruct (unsetOrPositive (exitCode (process s1))).
Qed.

(** X14: let terminal lines leave the working directory alone and let a
    [process.chdir] that returns have changed it to its argument. Then after
    a [_normalizeCwd] that returns the working directory is the build
    folder. When it already was, one line has been written and
    [process.chdir] has not been called; otherwise the line, a verbose line
    naming the old directory and [process.chdir(buildFolder)] followed. *)
Theorem normalizeCwd_reaches_build_folder this s s' :
  writesKeepCwd -> chdirSetsCwd ->
  _normalizeCwd this s = (Ok tt, s') ->
  cwd (process s') = buildFolder this
  /\ (cwd (process s) = buildFolder this ->
      calls s' = calls s ++ [returned (WriteLine [buildFolderMessage (buildFolder this)])])
  /\ (cwd (process s) <> buildFolder this ->
      calls s'
      = calls s
        ++ map returned
             [WriteLine [buildFolderMessage (buildFolder this)];
              WriteVerboseLine [normalizingMessage (cwd (process s))];
              Chdir (buildFolder this)]).
Proof.
  intros Hw Hcd H. unfold _normalizeCwd in H.
  apply andThen_Ok in H as ([] & s1 & H1 & H).
  apply callExternal_Ok in H1 as [Hc1 Hx1].
  assert (Hcwd1 : cwd (process s1) = cwd (process s)).
  { destruct (Hw [buildFolderMessage (buildFolder this)] (process s)) as [Hk _].
    by rewrite Hx1 in Hk. }
  unfold bind, getProcess in H. rewrite Hcwd1 in H. case_decide as Hd.
  - injection H as <-. split; [congruence|]. split; [done|]. congruence.
  - apply andThen_Ok in H as ([] & s2 & H2 & H3).
    apply callExternal_Ok in H2 as [Hc2 Hx2].
    apply callExternal_Ok in H3 as [Hc3 Hx3].
    split; [by apply Hcd in Hx3|]. split; [congruence|]. intros _.
    rewrite Hc3, Hc2, Hc1. simpl. by rewrite <- !app_assoc.
Qed.

Lemma normalizeCwd_setup this s s' :
  _normalizeCwd this s = (Ok tt, s') ->
  exists t, calls s' = calls s ++ t
            /\ Forall (fun x => isSetupCall x.1 = true /\ x.2 = true) t.
Proof.
  intros H. unfold _normalizeCwd in H.
  apply andThen_Ok in H as ([] & s1 & H1 & H).
  apply callExternal_Ok in H1 as [Hc1 _].
  unfold bind, getProcess in H. case_decide as Hd.
  - injection H as <-. eexists. split; [exact Hc1|]. by repeat constructor.
  - apply andThen_Ok in H as ([] & s2 & H2 & H3).
    apply callExternal_Ok in H2 as [Hc2 _].
    apply callExternal_Ok in H3 as [Hc3 _].
    eexists. split.
    + rewrite Hc3, Hc2, Hc1. rewrite <- !app_assoc. reflexivity.
    + by repeat constructor.
Qed.

(** X15: [onExecute] returns only when every call it made returned. It has
    then made, after logging and working-directory calls only, the plugin
    initialisations in order, the action of the base class and the flush of
    the metrics, in this order and once each; and [process.exitCode] is 0,
    whatever the action had set it to. *)
Theorem onExecute_resolved this s s' :
  onExecute this s = (Ok tt, s') ->
  exitCode (process s') = Some 0%Z
  /\ exists setup,
      calls s'
      = calls s ++ setup
        ++ map returned (initializeCalls (pluginsParameter this)
                         ++ [SuperOnExecute; FlushAndTeardownAsync])
      /\ Forall (fun x => isSetupCall x.1 = true /\ x.2 = true) setup.
Proof.
  intros H. unfold onExecute in H.
  apply andThen_Ok in H as ([] & s1 & H1 & H). injection H1 as <-.
  apply andThen_Ok in H as ([] & s2 & H2 & H). injection H2 as <-.
  apply andThen_Ok in H as ([] & s3 & Hdebug & H).
  assert (Hd : exists t, calls s3 = calls s ++ t
                         /\ Forall (fun x => isSetupCall x.1 = true /\ x.2 = true) t).
  { destruct (isDebug this).
    - apply andThen_Ok in Hdebug as ([] & s4 & Hc & Hu). injection Hu as <-.
      apply callExternal_Ok in Hc as [Hc _]. eexists. split; [exact Hc|].
      by repeat constructor.
    - injection Hdebug as <-. exists []. split; [by rewrite app_nil_r | constructor]. }
  destruct Hd as (t1 & Hc3 & Ht1).
  apply andThen_Ok in H as ([] & s4 & Hcwd & H).
  apply normalizeCwd_setup in Hcwd as (t2 & Hc4 & Ht2).
  apply andThen_Ok in H as ([] & s5 & Hinit & H).
  rewrite initializePlugins_callAll in Hinit.
  apply callAll_spec in Hinit as [[_ Hc5]|(e & done & failed & rest & p0 & Hr & _)];
    [|discriminate].
  apply andThen_Ok in H as ([] & s6 & Htry & H). injection H as <-.
  unfold tryCatch in Htry.
  destruct (andThen (callExternal SuperOnExecute) (callExternal FlushAndTeardownAsync) s5)
    as [[[]|e|code] s7] eqn:Hbody.
  - injection Htry as <-.
    apply andThen_Ok in Hbody as ([] & s8 & Hsuper & Hflush).
    apply callExternal_Ok in Hsuper as [Hc8 _].
    apply callExternal_Ok in Hflush as [Hc7 _].
    split; [done|]. exists (t1 ++ t2). split; [|by apply Forall_app].
    simpl. rewrite Hc7, Hc8, Hc5, Hc4, Hc3. rewrite map_app. simpl.
    by rewrite <- !app_assoc.
  - by apply reportError_not_Ok in Htry.
  - discriminate.
Qed.

Lemma quiet_callAll : externalsKeepExitCode -> forall cs, quiet (callAll cs).
Proof.
  intros Hk. induction cs as [|c cs IH]; intros s r s' H; simpl in H.
  - by injection H as <- <-.
  - apply andThen_inv in H as [(a & s1 & Hc & Hrest)|[(e & Hc & ->)|(code & Hc & _)]].
    + apply IH in Hrest as [He Hx]. split; [|done]. rewrite He.
      apply callExternal_inv in Hc as [(p & Hp & _ & ->)|(e & p & Hp & _ & ->)];
        simpl; specialize (Hk c (process s)); by rewrite Hp in Hk.
    + split; [|done].
      apply callExternal_inv in Hc as [(p & Hp & _ & ->)|(e' & p & Hp & _ & ->)];
        simpl; specialize (Hk c (process s)); by rewrite Hp in Hk.
    + apply callExternal_inv in Hc as [(p & _ & H & _)|(e' & p & _ & H & _)]; discriminate.
Qed.

Lemma quiet_callExternal : externalsKeepExitCode -> forall c, quiet (callExternal c).
Proof.
  intros Hk c s r s' H. apply (quiet_callAll Hk [c] s r s'). simpl.
  unfold andThen, bind, ret. rewrite H. by destruct r as [[]| |].
Qed.

Lemma quiet_andThen {A B : Type} (m : Action A) (k : Action B) :
  quiet m -> quiet k -> quiet (andThen m k).
Proof.
  intros Hm Hk s r s' H.
  apply andThen_inv in H as [(a & s1 & H1 & H2)|[(e & H1 & ->)|(code & H1 & ->)]].
  - apply Hm in H1 as [He1 _]. apply Hk in H2 as [He2 Hx]. split; [congruence|done].
  - apply Hm in H1 as [He1 _]. done.
  - apply Hm in H1 as [_ Hx]. by destruct (Hx code).
Qed.

Lemma quiet_normalizeCwd this : externalsKeepExitCode -> quiet (_normalizeCwd this).
Proof.
  intros Hk. unfold _normalizeCwd. apply quiet_andThen; [by apply quiet_callExternal|].
  intros s r s' H. unfold bind, getProcess in H. case_decide.
  - by injection H as <- <-.
  - revert H. apply quiet_andThen; by apply quiet_callExternal.
Qed.

Lemma quiet_initializePlugins l : externalsKeepExitCode -> quiet (_initializePlugins l).
Proof.
  intros Hk s r s' H. rewrite initializePlugins_callAll in H. by apply quiet_callAll in H.
Qed.

(** X16: let no call to the outside change [process.exitCode]. Then
    [process.exitCode] is 0 when [onExecute] returns and 1 in every other
    case: when it throws, and when it ends the process, which it then does
    with exit argument 1. *)
Theorem onExecute_exit_code this s r s' :
  externalsKeepExitCode ->
  onExecute this s = (r, s') ->
  match r with
  | Ok _ => exitCode (process s') = Some 0%Z
  | Raise _ => exitCode (process s') = Some 1%Z
  | Exit code => code = Some 1%Z /\ exitCode (process s') = Some 1%Z
  end.
Proof.
  intros Hk H. unfold onExecute in H.
  apply andThen_inv in H as [([] & s1 & H1 & H)|[(e & H1 & _)|(code & H1 & _)]];
    [|discriminate|discriminate].
  injection H1 as <-.
  apply andThen_inv in H as [([] & s2 & H2 & H)|[(e & H2 & _)|(code & H2 & _)]];
    [|discriminate|discriminate].
  injection H2 as <-.
  set (s2 := {| process := setVerboseEnabled (isDebug this) (setExitCode (Some 1%Z) (process s));
                calls := calls s |}) in H.
  assert (Hs2 : exitCode (process s2) = Some 1%Z) by done.
  clearbody s2.
  assert (Hdebug : quiet
            (if isDebug this
             then andThen (callExternal EnableVerboseLogging) (update (setBreakInDebugger true))
             else ret tt)).
  { destruct (isDebug this).
    - apply quiet_andThen; [by apply quiet_callExternal|].
      intros s0 r0 s0' H0. by injection H0 as <- <-.
    - intros s0 r0 s0' H0. by injection H0 as <- <-. }
  apply andThen_inv in H as [([] & s3 & H3 & H)|[(e & H3 & ->)|(code & H3 & ->)]];
    [|apply Hdebug in H3 as [He _]; congruence|apply Hdebug in H3 as [_ Hx]; by destruct (Hx code)].
  apply Hdebug in H3 as [He3 _].
  apply andThen_inv in H as [([] & s4 & H4 & H)|[(e & H4 & ->)|(code & H4 & ->)]];
    [|apply (quiet_normalizeCwd this Hk) in H4 as [He _]; congruence
     |apply (quiet_normalizeCwd this Hk) in H4 as [_ Hx]; by destruct (Hx code)].
  apply (quiet_normalizeCwd this Hk) in H4 as [He4 _].
  apply andThen_inv in H as [([] & s5 & H5 & H)|[(e & H5 & ->)|(code & H5 & ->)]];
    [|apply (quiet_initializePlugins _ Hk) in H5 as [He _]; congruence
     |apply (quiet_initializePlugins _ Hk) in H5 as [_ Hx]; by destruct (Hx code)].
  apply (quiet_initializePlugins _ Hk) in H5 as [He5 _].
  assert (Hs5 : exitCode (process s5) = Some 1%Z) by congruence.
  apply andThen_inv in H as [([] & s6 & H6 & H)|[(e & H6 & ->)|(code & H6 & ->)]].
  - by injection H as <- <-.
  - unfold tryCatch in H6.
    destruct (andThen (callExternal SuperOnExecute) (callExternal FlushAndTeardownAsync) s5)
      as [[[]|e0|code0] s7] eqn:Hbody; [discriminate| |discriminate].
    apply (quiet_andThen _ _ (quiet_callExternal Hk _) (quiet_callExternal Hk _)) in Hbody
      as [He7 _].
    rewrite reportError_callAll in H6.
    apply andThen_inv in H6 as [(a & s8 & _ & Hexit)|[(e1 & Hc & _)|(code & Hc & H)]].
    + unfold bind, getProcess, processExit in Hexit.
      by destruct (unsetOrPositive (exitCode (process s8))).
    + apply (quiet_callAll Hk) in Hc as [He8 _]. congruence.
    + discriminate.
  - unfold tryCatch in H6.
    destruct (andThen (callExternal SuperOnExecute) (callExternal FlushAndTeardownAsync) s5)
      as [[[]|e0|code0] s7] eqn:Hbody.
    + discriminate.
    + apply (quiet_andThen _ _ (quiet_callExternal Hk _) (quiet_callExternal Hk _)) in Hbody
        as [He7 _].
      rewrite reportError_callAll in H6.
      apply andThen_inv in H6 as [(a & s8 & Hc & Hexit)|[(e1 & Hc & H)|(code1 & Hc & _)]].
      * apply (quiet_callAll Hk) in Hc as [He8 _].
        assert (Hs8 : exitCode (process s8) = Some 1%Z) by congruence.
        unfold bind, getProcess, processExit in Hexit. rewrite Hs8 in Hexit.
        simpl in Hexit. by injection Hexit as <- <-.
      * discriminate.
      * apply (quiet_callAll Hk) in Hc as [_ Hx]. by destruct (Hx code1).
    + apply (quiet_andThen _ _ (quiet_callExternal Hk _) (quiet_callExternal Hk _)) in Hbody
        as [_ Hx]. by destruct (Hx code0).
Qed.

End CommandLineProperties.

(** * The build with two compiler objects, run *)

Example heftInstalled_ok :
  heftInstall 10 [0; 1] false (Some 0) heftStart = (Normal tt, heftInstalled).
Proof. reflexivity. Qed.

Example heftCall_normal :
  exists m,
    heftCall 10 (heftArgs None None) heftInstalled
    = Some (Normal {| emitSkipped := true; diagnostics := Some 1; emittedFiles := None |}, m)
    /\ world m = ["lib"; "lib-esnext"]%string
    /\ setContents 0 m = {[42]}.
Proof. eexists. split; [vm_compute; reflexivity|]. split; reflexivity. Qed.

Lemma install_derives_compiler_options_witness :
  exists c co0 co1,
    emitFiles heftInstalled !! 10 = Some (PatchedEmit c)
    /\ closure_compilerOptionsMap c !! 0 = Some co0
    /\ co0 = {| outDir := Some "lib"%string; module := Some 1; declaration := Some true;
               declarationMap := Some true; otherOptions := 7 |}
    /\ closure_compilerOptionsMap c !! 1 = Some co1
    /\ co1 = {| outDir := Some "lib-esnext"%string; module := Some 99;
               declaration := Some false; declarationMap := Some false;
               otherOptions := 7 |}.
Proof.
  destruct (install_derives_compiler_options heftVariantAt 10 heftTsconfig [0; 1] false
              (Some 0) heftStart heftInstalled eq_refl) as (c & Hc & _ & Hv).
  destruct (Hv 0) as (co0 & H0 & Hd0 & Ho0 & Hp0 & _); [repeat constructor|].
  destruct (Hv 1) as (co1 & H1 & Hd1 & Ho1 & _ & Hs1); [repeat constructor|].
  destruct (Hp0 eq_refl) as (Hm0 & Hde0 & Hdm0).
  destruct (Hs1 eq_refl) as (Hm1 & Hde1 & Hdm1).
  exists c, co0, co1. repeat split; try assumption.
  - destruct co0; simpl in *; congruence.
  - destruct co1; simpl in *; congruence.
Defined.

Lemma install_while_installed_fails_witness :
  heftInstall 11 [1] true None heftInstalled
  = (Throw (InternalError alreadyInstalledMessage), heftInstalled).
Proof.
  apply (install_while_installed_fails heftVariantAt 11 heftTsconfig [1] true None
           heftInstalled).
  reflexivity.
Defined.

Lemma uninstall_failures_witness :
  uninstall 10 heftStart = (Throw (InternalError notInstalledMessage), heftStart)
  /\ uninstall 11 heftInstalled = (Throw (InternalError wrongObjectMessage), heftInstalled).
Proof.
  split.
  - apply (uninstall_failures 10 heftStart). reflexivity.
  - apply (proj2 (uninstall_failures 11 heftInstalled) 10); [reflexivity | discriminate].
Defined.

Lemma install_then_uninstall_restores_witness :
  exists m1 m2 c,
    heftInstall 10 [0; 1] false (Some 0) heftStart = (Normal tt, m1)
    /\ emitFiles m1 !! 10 = Some (PatchedEmit c)
    /\ uninstall 10 m1 = (Normal tt, m2)
    /\ emitFiles m2 !! 10 = Some (NativeEmit 0)
    /\ isInstalled m2 = false.
Proof.
  destruct (install_then_uninstall_restores heftVariantAt 10 heftTsconfig [0; 1] false
              (Some 0) heftStart eq_refl eq_refl)
    as (m1 & m2 & c & H1 & H2 & _ & H3 & H4 & H5 & _).
  exists m1, m2, c. repeat split; assumption.
Defined.

Lemma pass_through_forwards_once_witness :
  exists m',
    callEmitFn heftVariantAt heftGetTransformers heftNativeEmit 1 (PatchedEmit heftClosure)
      (heftArgs (Some true) None) heftInstalled
    = Some (Normal {| emitSkipped := false; diagnostics := Some 1; emittedFiles := None |}, m')
    /\ trace m' = [EvCall (NativeEmit 0) (heftArgs (Some true) None)]
    /\ world m' = ["out"%string]
    /\ sets m' = ∅.
Proof.
  destruct (pass_through_forwards_once heftVariantAt heftGetTransformers heftNativeEmit 0
              heftClosure (heftArgs (Some true) None) heftInstalled (NativeEmit 0)
              (or_intror eq_refl) eq_refl) as [_ H].
  destruct (H 0 eq_refl) as (m' & Hcall & Htrace & Hworld & Hsets).
  exists m'. repeat split; assumption.
Defined.

Lemma changed_file_recorded_first_witness :
  callEmitFn heftVariantAt heftGetTransformers heftNativeEmit 1 (PatchedEmit heftClosure11)
    (heftArgs None None) heftInstalled11
  = Some (Throw (Thrown 13), heftAfterThrow)
  /\ 42 ∈ setContents 0 heftAfterThrow
  /\ occurrences 42 (setContents 0 heftAfterThrow) = 1
  /\ (exists suffix, trace heftAfterThrow = trace heftInstalled11 ++ EvAdd 0 42 :: suffix)
  /\ exists out m',
      callEmitFn heftVariantAt heftGetTransformers heftNativeEmit 1 (PatchedEmit heftClosure11)
        (heftArgs None None) heftAfterThrow = Some (out, m')
      /\ setContents 0 m' = setContents 0 heftAfterThrow.
Proof.
  assert (Hcall : callEmitFn heftVariantAt heftGetTransformers heftNativeEmit 1
                    (PatchedEmit heftClosure11) (heftArgs None None) heftInstalled11
                  = Some (Throw (Thrown 13), heftAfterThrow))
    by (vm_compute; reflexivity).
  destruct (changed_file_recorded_first heftVariantAt heftGetTransformers heftNativeEmit 0
              heftClosure11 (heftArgs None None) heftInstalled11 42 0)
    as [Hany _]; [discriminate | discriminate | reflexivity | reflexivity |].
  destruct (Hany _ _ Hcall) as (Hin & Hocc & Htrace).
  destruct (changed_file_recorded_first heftVariantAt heftGetTransformers heftNativeEmit 0
              heftClosure11 (heftArgs None None) heftAfterThrow 42 0)
    as [_ Hnative]; [discriminate | discriminate | reflexivity | reflexivity |].
  destruct (Hnative 1 eq_refl) as (out & m' & Hcall' & _ & Hsame).
  split; [exact Hcall|]. split; [exact Hin|]. split; [exact Hocc|]. split; [exact Htrace|].
  exists out, m'. split; [exact Hcall' | exact (Hsame Hin)].
Defined.

Lemma fan_out_merges_results_witness :
  exists res,
    callEmitFn heftVariantAt heftGetTransformers heftNativeEmit 1 (PatchedEmit heftClosure)
      (heftArgs None None) heftInstalled = Some (Normal res, heftAfterNormal)
    /\ emitSkipped res = true
    /\ diagnostics res = Some 1
    /\ emittedFiles res = None.
Proof.
  destruct (fan_out_merges_results heftVariantAt heftGetTransformers heftNativeEmit 0 10
              heftTsconfig [0; 1] false (Some 0) heftStart heftInstalled heftClosure
              (heftArgs None None) heftInstalled (NativeEmit 0) 0 heftFlavorResults
              heftAfterNormal)
    as (res & Hcall & Hskip & i & v & r & Hv & Hr & _ & _ & Hdiag & Hfiles & Hp).
  - reflexivity.
  - reflexivity.
  - repeat constructor.
  - reflexivity.
  - intros v Hv.
    apply elem_of_cons in Hv as [->|Hv]; [discriminate|].
    apply elem_of_cons in Hv as [->|Hv]; [discriminate|].
    by apply elem_of_nil in Hv.
  - discriminate.
  - discriminate.
  - reflexivity.
  - eapply FlavorRuns_cons; [vm_compute; reflexivity|].
    eapply FlavorRuns_cons; [vm_compute; reflexivity|].
    apply FlavorRuns_nil.
  - exists res. split; [exact Hcall|]. split; [exact Hskip|].
    assert (Hvp : v = 0) by (apply Hp; compute_done).
    subst v. destruct i as [|[|i]]; try discriminate.
    injection Hr as <-. split; [exact Hdiag | exact Hfiles].
Defined.

(** C8, counterexample: [install] returns normally for a list in which two
    variants have the same module kind, and for a list in which a variant has
    an empty output folder. *)
Lemma install_accepts_duplicate_kind_and_empty_path :
  moduleKind (heftVariantAt 0) = moduleKind (heftVariantAt 3)
  /\ (heftInstall 10 [0; 3] false None heftStart).1 = Normal tt
  /\ outFolderPath (heftVariantAt 4) = EmptyString
  /\ (heftInstall 10 [0; 4] false None heftStart).1 = Normal tt.
Proof. repeat split; reflexivity. Qed.

Lemma output_path_checked_during_emit_witness :
  exists m1 c,
    heftInstall 10 [0; 4] false (Some 0) heftStart = (Normal tt, m1)
    /\ emitFiles m1 !! 10 = Some (PatchedEmit c)
    /\ callEmitFn heftVariantAt heftGetTransformers heftNativeEmit 1 (PatchedEmit c)
         (heftArgs None None) heftInstalledEmptyPath
       = Some (Throw (InternalError outDirMessage), heftAfterEmptyPath)
    /\ world heftAfterEmptyPath = ["lib"%string].
Proof.
  destruct (output_path_checked_during_emit heftVariantAt heftGetTransformers heftNativeEmit
              0 10 heftTsconfig [0; 4] false (Some 0) heftStart eq_refl eq_refl)
    as (m1 & c & Hinst & Hfn & Hemit).
  assert (Hm1 : m1 = heftInstalledEmptyPath).
  { assert (H : (Normal tt, heftInstalledEmptyPath)
                = (@Normal nat unit tt, m1)) by (rewrite <- Hinst; reflexivity).
    by injection H. }
  assert (Hc : c = installedClosure heftVariantAt 10 heftTsconfig [0; 4] false (Some 0)).
  { rewrite Hm1 in Hfn.
    assert (H : Some (PatchedEmit
                        (installedClosure heftVariantAt 10 heftTsconfig [0; 4] false (Some 0)))
                = Some (PatchedEmit c)) by (rewrite <- Hfn; reflexivity).
    by injection H. }
  exists m1, c. split; [exact Hinst|]. split; [exact Hfn|]. split; [|reflexivity].
  apply (Hemit [0] 4 [] (heftArgs None None) heftInstalledEmptyPath (NativeEmit 0)
           [ {| emitSkipped := false; diagnostics := Some 1; emittedFiles := None |} ]).
  - reflexivity.
  - intros w Hw. apply elem_of_cons in Hw as [->|Hw]; [discriminate|].
    by apply elem_of_nil in Hw.
  - reflexivity.
  - discriminate.
  - discriminate.
  - reflexivity.
  - rewrite Hc. eapply FlavorRuns_cons; [vm_compute; reflexivity|]. apply FlavorRuns_nil.
Defined.

(** C2: a variant list without primary is not rejected. For the list made of
    the one non-primary variant 1, [install] returns normally and replaces
    [ts.emitFiles]; the default module kind stays undefined, and a normal
    emit call then returns an object that has no [diagnostics]. *)
Theorem install_accepts_list_without_primary :
  primaryCount heftVariantAt [1] = 0
  /\ emitFiles heftStart !! 10 = Some (NativeEmit 0)
  /\ exists m c m',
      heftInstall 10 [1] false (Some 0) heftStart = (Normal tt, m)
      /\ emitFiles m !! 10 = Some (PatchedEmit c)
      /\ closure_defaultModuleKind c = None
      /\ heftCall 10 (heftArgs None None) m
         = Some (Normal {| emitSkipped := true; diagnostics := None; emittedFiles := None |},
                 m').
Proof.
  split; [reflexivity|]. split; [reflexivity|].
  eexists _, _, _. split; [reflexivity|]. split; [reflexivity|]. split; [reflexivity|].
  vm_compute. reflexivity.
Qed.

(** C5: an [install] that fails is not undone. For the list [0; 2] with two
    primaries, [install] throws "Multiple primary module emit kinds
    encountered." after it has stored the handle and the emitter:
    [isInstalled] has become true although [ts.emitFiles] is untouched, and
    a following [install] with a good list is refused. *)
Theorem failed_install_leaves_patch_recorded :
  isInstalled heftStart = false
  /\ exists m,
      heftInstall 10 [0; 2] false None heftStart = (Throw (Error multiplePrimaryMessage), m)
      /\ isInstalled m = true
      /\ _patchedTs m = Some 10
      /\ _baseEmitFiles m = Some (NativeEmit 0)
      /\ emitFiles m = emitFiles heftStart
      /\ heftInstall 10 [0; 1] false None m
         = (Throw (InternalError alreadyInstalledMessage), m).
Proof.
  split; [reflexivity|]. eexists. split; [reflexivity|]. repeat split.
Qed.

(** * Runs for the further properties *)

Lemma install_rejects_multiple_primaries_witness :
  exists m',
    heftInstall 10 [0; 2] false None heftStart = (Throw (Error multiplePrimaryMessage), m')
    /\ emitFiles m' = emitFiles heftStart.
Proof.
  destruct (install_rejects_multiple_primaries heftVariantAt 10 heftTsconfig [0; 2] false None
              heftStart eq_refl) as (m' & H & He & _).
  - unfold primaryCount. simpl. lia.
  - exists m'. split; assumption.
Defined.

Lemma install_accepts_iff_witness :
  exists m', heftInstall 10 [0; 1] false None heftStart = (Normal tt, m').
Proof.
  apply (proj2 (install_accepts_iff heftVariantAt 10 heftTsconfig [0; 1] false None heftStart)).
  split; [reflexivity | unfold primaryCount; simpl; lia].
Defined.

Lemma install_frame_witness :
  emitFiles (heftInstall 10 [0; 1] false (Some 0) heftStart).2 !! 11 = Some (NativeEmit 1)
  /\ sets (heftInstall 10 [0; 1] false (Some 0) heftStart).2 = ∅.
Proof.
  destruct (install_frame heftVariantAt 10 heftTsconfig [0; 1] false (Some 0) heftStart 11)
    as (H1 & H2 & _); [discriminate|].
  split; assumption.
Defined.

Lemma install_options_map_domain_witness :
  is_Some (closure_compilerOptionsMap heftClosure !! 1)
  /\ ~ is_Some (closure_compilerOptionsMap heftClosure !! 2).
Proof.
  pose proof (install_options_map_domain heftVariantAt 10 heftTsconfig [0; 1] false (Some 0)
                heftStart heftInstalled heftClosure eq_refl eq_refl) as H.
  split.
  - apply (H 1). repeat constructor.
  - intros H2. apply (H 2) in H2.
    apply elem_of_cons in H2 as [H2|H2]; [discriminate|].
    apply elem_of_cons in H2 as [H2|H2]; [discriminate|].
    by apply elem_of_nil in H2.
Defined.

Lemma uninstall_succeeds_iff_witness :
  exists m',
    uninstall 10 heftInstalled = (Normal tt, m')
    /\ emitFiles m' !! 10 = Some (NativeEmit 0)
    /\ _patchedTs m' = None.
Proof.
  destruct (uninstall_succeeds_iff 10 heftInstalled) as [Hiff Heff].
  destruct (proj2 Hiff eq_refl) as [m' Hun].
  destruct (Heff m' Hun) as (H1 & _ & H2 & _).
  exists m'. split; [exact Hun|]. split; [exact H1 | exact H2].
Defined.

Lemma uninstall_clears_rejected_install_witness :
  exists e m1 m2,
    heftInstall 10 [0; 2] false None heftStart = (Throw e, m1)
    /\ uninstall 10 m1 = (Normal tt, m2)
    /\ isInstalled m2 = false
    /\ emitFiles m2 = emitFiles heftStart.
Proof.
  destruct (uninstall_clears_rejected_install heftVariantAt 10 heftTsconfig [0; 2] false None
              heftStart eq_refl) as (e & m1 & m2 & H1 & H2 & H3 & _ & H4 & _).
  - unfold primaryCount. simpl. lia.
  - exists e, m1, m2. repeat split; assumption.
Defined.

Lemma emit_call_keeps_patch_state_witness :
  _patchedTs heftAfterNormal = Some 10
  /\ _baseEmitFiles heftAfterNormal = Some (NativeEmit 0)
  /\ emitFiles heftAfterNormal = emitFiles heftInstalled.
Proof.
  destruct (emit_call_keeps_patch_state heftVariantAt heftGetTransformers heftNativeEmit 1
              (PatchedEmit heftClosure) (heftArgs None None) heftInstalled
              (Normal {| emitSkipped := true; diagnostics := Some 1; emittedFiles := None |})
              heftAfterNormal) as (H1 & H2 & H3 & _).
  - vm_compute. reflexivity.
  - split; [exact H1|]. split; [exact H2 | exact H3].
Defined.

Lemma fan_out_propagates_throw_witness :
  callEmitFn heftVariantAt heftGetTransformers heftNativeEmit 1 (PatchedEmit heftClosure11)
    (heftArgs None None) heftInstalled11
  = Some (Throw (Thrown 13), heftAfterThrow)
  /\ world heftAfterThrow = [].
Proof.
  split; [|reflexivity].
  apply (fan_out_propagates_throw heftVariantAt heftGetTransformers heftNativeEmit 0 11
           heftTsconfig [0; 1] false (Some 0) heftStart heftInstalled11 heftClosure11
           (heftArgs None None) heftInstalled11 (NativeEmit 1) [] 0 [1] []
           (recordChangedFile heftClosure11 (heftArgs None None) heftInstalled11)).
  - reflexivity.
  - reflexivity.
  - reflexivity.
  - intros w Hw. apply elem_of_cons in Hw as [->|Hw]; [discriminate|].
    by apply elem_of_nil in Hw.
  - discriminate.
  - discriminate.
  - reflexivity.
  - apply FlavorRuns_nil.
  - vm_compute. reflexivity.
Defined.


Lemma changed_files_untouched_witness :
  exists out m',
    callEmitFn heftVariantAt heftGetTransformers heftNativeEmit 1 (PatchedEmit heftClosure)
      (heftArgs (Some true) None) heftInstalled = Some (out, m')
    /\ sets m' = sets heftInstalled.
Proof.
  apply (changed_files_untouched heftVariantAt heftGetTransformers heftNativeEmit 0 heftClosure
           (heftArgs (Some true) None) heftInstalled 0); [reflexivity|].
  right. left. reflexivity.
Defined.

Lemma arrow_function_after_uninstall_witness :
  callEmitFn heftVariantAt heftGetTransformers heftNativeEmit 1 (PatchedEmit heftClosure)
    (heftArgs (Some true) None) (uninstall 10 heftInstalled).2
  = Some (Throw TypeError, (uninstall 10 heftInstalled).2)
  /\ callEmitFn heftVariantAt heftGetTransformers heftNativeEmit 1 (PatchedEmit heftClosure)
       (heftArgs None None) (uninstall 10 heftInstalled).2
     = Some (Throw TypeError,
             recordChangedFile heftClosure (heftArgs None None) (uninstall 10 heftInstalled).2).
Proof.
  split.
  - apply (proj1 (arrow_function_after_uninstall heftVariantAt heftGetTransformers
                    heftNativeEmit 0 10 heftTsconfig [0; 1] false (Some 0) heftStart
                    heftInstalled heftClosure (uninstall 10 heftInstalled).2
                    (heftArgs (Some true) None) eq_refl eq_refl eq_refl)).
    right. reflexivity.
  - apply (proj2 (arrow_function_after_uninstall heftVariantAt heftGetTransformers
                    heftNativeEmit 0 10 heftTsconfig [0; 1] false (Some 0) heftStart
                    heftInstalled heftClosure (uninstall 10 heftInstalled).2
                    (heftArgs None None) eq_refl eq_refl eq_refl) 0 [1]);
      [discriminate | discriminate | reflexivity | discriminate].
Defined.

Lemma heftExternal_keeps_exit_code : externalsKeepExitCode heftExternal.
Proof.
  intros c p. destruct c; simpl; try reflexivity.
  - by destruct (String.eqb pluginSpecifier "missing").
  - by destruct (collaborators p).
Qed.

Lemma heftExternal_writes_keep_cwd : writesKeepCwd heftExternal.
Proof. intros parts p. split; reflexivity. Qed.

Lemma heftExternal_chdir_sets_cwd : chdirSetsCwd heftExternal.
Proof. intros directory p p' H. simpl in H. by injection H as <-. Qed.

Lemma initializePlugins_in_order_witness :
  exists e done failed rest,
    (_initializePlugins heftExternal (pluginsParameter heftParserMissing)
       (heftRunStart false)).1 = Raise e
    /\ initializeCalls (pluginsParameter heftParserMissing) = done ++ failed :: rest
    /\ calls (_initializePlugins heftExternal (pluginsParameter heftParserMissing)
                (heftRunStart false)).2
       = map returned done ++ [(failed, false)].
Proof.
  destruct (initializePlugins_in_order heftExternal (pluginsParameter heftParserMissing)
              (heftRunStart false)
              (_initializePlugins heftExternal (pluginsParameter heftParserMissing)
                 (heftRunStart false)).1
              (_initializePlugins heftExternal (pluginsParameter heftParserMissing)
                 (heftRunStart false)).2)
    as [[H _]|(e & done & failed & rest & p0 & H1 & H2 & H3 & _)].
  - reflexivity.
  - discriminate.
  - exists e, done, failed, rest. split; [exact H1|]. split; [exact H2 | exact H3].
Defined.


Lemma normalizeCwd_reaches_build_folder_witness :
  cwd (process (_normalizeCwd heftExternal heftParser (heftRunStart false)).2) = "/repo/app"%string
  /\ calls (_normalizeCwd heftExternal heftParser (heftRunStart false)).2
     = map returned
         [WriteLine [buildFolderMessage "/repo/app"];
          WriteVerboseLine [normalizingMessage "/repo"];
          Chdir "/repo/app"].
Proof.
  destruct (normalizeCwd_reaches_build_folder heftExternal heftParser (heftRunStart false)
              (_normalizeCwd heftExternal heftParser (heftRunStart false)).2
              heftExternal_writes_keep_cwd heftExternal_chdir_sets_cwd eq_refl)
    as (H1 & _ & H2).
  split; [exact H1|]. apply H2. discriminate.
Defined.

Lemma onExecute_resolved_witness :
  exitCode (process (heftOnExecute heftParser false).2) = Some 0%Z
  /\ exists setup,
      calls (heftOnExecute heftParser false).2
      = setup
        ++ map returned (initializeCalls (pluginsParameter heftParser)
                         ++ [SuperOnExecute; FlushAndTeardownAsync]).
Proof.
  destruct (onExecute_resolved heftExternal heftToString heftStack heftParser
              (heftRunStart false) (heftOnExecute heftParser false).2)
    as (H1 & setup & H2 & _).
  - reflexivity.
  - split; [exact H1|]. exists setup. exact H2.
Defined.

Lemma onExecute_exit_code_witness :
  (exists code, (heftOnExecute heftParser true).1 = Exit code /\ code = Some 1%Z)
  /\ exitCode (process (heftOnExecute heftParser true).2) = Some 1%Z
  /\ (exists e, (heftOnExecute heftParserMissing false).1 = Raise e)
  /\ exitCode (process (heftOnExecute heftParserMissing false).2) = Some 1%Z.
Proof.
  pose proof (onExecute_exit_code heftExternal heftToString heftStack heftParser
                (heftRunStart true) (heftOnExecute heftParser true).1
                (heftOnExecute heftParser true).2 heftExternal_keeps_exit_code eq_refl) as H1.
  pose proof (onExecute_exit_code heftExternal heftToString heftStack heftParserMissing
                (heftRunStart false) (heftOnExecute heftParserMissing false).1
                (heftOnExecute heftParserMissing false).2 heftExternal_keeps_exit_code
                eq_refl) as H2.
  destruct (heftOnExecute heftParser true).1 as [[]|e|code] eqn:Hr1; try discriminate.
  destruct (heftOnExecute heftParserMissing false).1 as [[]|e|code'] eqn:Hr2; try discriminate.
  destruct H1 as [Hc He]. split; [by exists code|]. split; [exact He|].
  split; [by exists e | exact H2].
Defined.
